(** * sshpiper: the piped-connection core of [ssh/sshpiper.go]

    A shallow embedding of the authentication relay of the SSH reverse
    proxy: the host-key list, the publickey payload parser, the per-message
    transform [processAuthMsg] with its three helpers, the relay loop
    [pipeAuth] and the session set-up [NewSSHPiperConn].

    Go pointers to messages are modelled by values that are passed and
    returned; a [(value, error)] pair is an [outcome]; the two transports
    are explicit state. *)

From Stdlib Require Import Strings.String Strings.Byte.
From Stdlib Require Import List NArith ZArith Bool Arith Lia.
Import ListNotations.

Local Open Scope string_scope.
Local Open Scope list_scope.

Set Implicit Arguments.

(** ** Bytes, errors and outcomes *)

Definition bytes := list byte.

Definition bytes_eqb (a b : bytes) : bool :=
  if list_eq_dec Byte.byte_eq_dec a b then true else false.

(** [[]byte(s)] and [string(b)]. *)
Definition bytesOf (s : string) : bytes := list_byte_of_string s.
Definition stringOf (b : bytes) : string := string_of_list_byte b.

(** SSH message numbers used by the relay. *)
Definition msgServiceRequest : byte := x05.
Definition msgServiceAccept : byte := x06.
Definition msgNewKeys : byte := x15.
Definition msgUserAuthRequest : byte := x32.
Definition msgUserAuthFailure : byte := x33.
Definition msgUserAuthSuccess : byte := x34.
Definition msgUserAuthPubKeyOk : byte := x3c.

Definition serviceUserAuth : string := "ssh-userauth".
Definition serviceSSH : string := "ssh-connection".

Inductive error : Type :=
| parseError (msgType : byte)
| unexpectedMessageError (expected got : byte)
| errShortRead
| errorString (s : string)
| errAlgoNotAccepted (algo : string)
| errEOF
| errWrite
| errExternal (code : nat).

(** What a Go call can do: return a value with a nil error, return a
    non-nil error, or panic. *)
Inductive outcome (A : Type) : Type :=
| Ret (a : A)
| Fail (e : error)
| Panic (why : string).

Arguments Ret {A} a.
Arguments Fail {A} e.
Arguments Panic {A} why.

(** ** Keys, signatures and signers (the interfaces of keys.go) *)

Record Signature : Type := mkSignature {
  Format : string;
  Blob : bytes
}.

(** [Verify] returns the error of the Go method: [None] is a nil error. *)
Record PublicKey : Type := mkPublicKey {
  Type' : string;
  pubMarshal : bytes;
  Verify : bytes -> Signature -> option error
}.

(** The [io.Reader] handed to [Sign]. *)
Definition ioReader := bytes.

Record Signer : Type := mkSigner {
  signerPublicKey : PublicKey;
  Sign : ioReader -> bytes -> outcome Signature
}.

(** ** Wire format

    [Marshal], [Unmarshal], [parseString], [marshalString] and
    [parseSignature] live in messages.go, common.go and keys.go, which are
    not among the sources.  They are modelled on the wire format the spec
    refers to (RFC 4251): a string is a big-endian 32-bit length followed
    by that many bytes. *)

Definition byteOfN (n : N) : byte :=
  match Byte.of_N (n mod 256) with
  | Some b => b
  | None => x00
  end.

(** Modelled from the spec: the length field of a wire string, the four
    big-endian bytes of [uint32(n)]; its encoder is in common.go. *)
Definition marshalUint32 (n : N) : bytes :=
  [byteOfN (n / 16777216); byteOfN (n / 65536); byteOfN (n / 256); byteOfN n].

(** Modelled from the spec: reading the length field back (common.go). *)
Definition parseUint32 (b : bytes) : option (N * bytes) :=
  match b with
  | b0 :: b1 :: b2 :: b3 :: rest =>
      Some ((Byte.to_N b0 * 16777216 + Byte.to_N b1 * 65536
             + Byte.to_N b2 * 256 + Byte.to_N b3)%N, rest)
  | _ => None
  end.

(** [uint32(len(x))]. *)
Definition uint32 (n : nat) : N := (N.of_nat n mod 4294967296)%N.

(** Modelled from the spec: [stringLength] and [marshalString] of
    common.go, the size and the bytes of a wire string. *)
Definition stringLength (n : nat) : nat := 4 + n.

(** Modelled from the spec: [marshalString] filling a buffer of
    [stringLength(len(s))] bytes, as [signAgain] uses it. *)
Definition marshalString (s : bytes) : bytes :=
  marshalUint32 (N.of_nat (List.length s)) ++ s.

(** Modelled from the spec: [parseString] of common.go, which returns
    the string, the rest and whether a whole string was there. *)
Definition parseString (b : bytes) : option (bytes * bytes) :=
  match parseUint32 b with
  | None => None
  | Some (len, rest) =>
      if (uint32 (List.length rest) <? len)%N then None
      else Some (firstn (N.to_nat len) rest, skipn (N.to_nat len) rest)
  end.

Definition marshalBool (b : bool) : bytes := [if b then x01 else x00].

(** ** Messages (messages.go) *)

Record userAuthRequestMsg : Type := mkUserAuthRequestMsg {
  User : string;
  Service : string;
  Method : string;
  Payload : bytes
}.

Record publickeyAuthMsg : Type := mkPublickeyAuthMsg {
  pkUser : string;
  pkService : string;
  pkMethod : string;
  HasSig : bool;
  Algoname : string;
  PubKey : bytes;
  Sig : bytes
}.

Record userAuthPubKeyOkMsg : Type := mkUserAuthPubKeyOkMsg {
  okAlgo : string;
  okPubKey : bytes
}.

Record userAuthFailureMsg : Type := mkUserAuthFailureMsg {
  Methods : list string;
  PartialSuccess : bool
}.

Record serviceRequestMsg : Type := mkServiceRequestMsg { reqService : string }.
Record serviceAcceptMsg : Type := mkServiceAcceptMsg { accService : string }.

(** Modelled from the spec: [Marshal] of messages.go.  It is generic in
    Go; here it is a class with one instance per message struct.  The
    message number comes first, a [string] or [[]byte] field is a wire
    string, a [[]byte] field tagged [ssh:"rest"] is copied as it is. *)
Class Marshaler (A : Type) : Type := { Marshal : A -> bytes }.

Definition marshalStr (s : string) : bytes := marshalString (bytesOf s).

#[export] Instance Marshal_userAuthRequestMsg : Marshaler userAuthRequestMsg :=
  {| Marshal m :=
       msgUserAuthRequest :: marshalStr (User m) ++ marshalStr (Service m)
         ++ marshalStr (Method m) ++ Payload m |}.

#[export] Instance Marshal_publickeyAuthMsg : Marshaler publickeyAuthMsg :=
  {| Marshal m :=
       msgUserAuthRequest :: marshalStr (pkUser m) ++ marshalStr (pkService m)
         ++ marshalStr (pkMethod m) ++ marshalBool (HasSig m)
         ++ marshalStr (Algoname m) ++ marshalString (PubKey m) ++ Sig m |}.

#[export] Instance Marshal_userAuthPubKeyOkMsg : Marshaler userAuthPubKeyOkMsg :=
  {| Marshal m :=
       msgUserAuthPubKeyOk :: marshalStr (okAlgo m) ++ marshalString (okPubKey m) |}.

#[export] Instance Marshal_userAuthFailureMsg : Marshaler userAuthFailureMsg :=
  {| Marshal m :=
       msgUserAuthFailure :: marshalStr (String.concat "," (Methods m))
         ++ marshalBool (PartialSuccess m) |}.

#[export] Instance Marshal_serviceRequestMsg : Marshaler serviceRequestMsg :=
  {| Marshal m := msgServiceRequest :: marshalStr (reqService m) |}.

#[export] Instance Marshal_serviceAcceptMsg : Marshaler serviceAcceptMsg :=
  {| Marshal m := msgServiceAccept :: marshalStr (accService m) |}.

#[export] Instance Marshal_Signature : Marshaler Signature :=
  {| Marshal s := marshalStr (Format s) ++ marshalString (Blob s) |}.

(** Modelled from the spec: [Unmarshal(data, &out)] of messages.go for a
    [userAuthRequestMsg]: the fields are filled in order, so a failure
    leaves the earlier ones written. *)
Definition Unmarshal_userAuthRequestMsg (data : bytes) (out : userAuthRequestMsg)
  : userAuthRequestMsg * option error :=
  match data with
  | [] => (out, Some (parseError msgUserAuthRequest))
  | t :: data =>
      if negb (Byte.eqb t msgUserAuthRequest)
      then (out, Some (unexpectedMessageError msgUserAuthRequest t))
      else
        match parseString data with
        | None => (out, Some errShortRead)
        | Some (u, data) =>
            let out := mkUserAuthRequestMsg (stringOf u) (Service out) (Method out) (Payload out) in
            match parseString data with
            | None => (out, Some errShortRead)
            | Some (s, data) =>
                let out := mkUserAuthRequestMsg (User out) (stringOf s) (Method out) (Payload out) in
                match parseString data with
                | None => (out, Some errShortRead)
                | Some (m, data) =>
                    (mkUserAuthRequestMsg (User out) (Service out) (stringOf m) data, None)
                end
            end
        end
  end.

(** Modelled from the spec: [Unmarshal] of messages.go for a message
    with a single string field and message number [ty]. *)
Definition Unmarshal_service (ty : byte) (data : bytes) : outcome string :=
  match data with
  | [] => Fail (parseError ty)
  | t :: data =>
      if negb (Byte.eqb t ty) then Fail (unexpectedMessageError ty t)
      else
        match parseString data with
        | None => Fail errShortRead
        | Some (s, []) => Ret (stringOf s)
        | Some (_, _ :: _) => Fail (parseError ty)
        end
  end.

(** The zero value of the request struct. *)
Definition emptyUserAuthRequestMsg : userAuthRequestMsg :=
  mkUserAuthRequestMsg EmptyString EmptyString EmptyString [].

(** Modelled from the spec: [parseSignatureBody] and [parseSignature] of
    keys.go; a signature on the wire is a string holding the format string
    and the blob string, with nothing after them. *)
Definition parseSignatureBody (b : bytes) : option (Signature * bytes) :=
  match parseString b with
  | None => None
  | Some (format, b) =>
      match parseString b with
      | None => None
      | Some (blob, b) => Some (mkSignature (stringOf format) blob, b)
      end
  end.

Definition parseSignature (b : bytes) : option (Signature * bytes) :=
  match parseString b with
  | None => None
  | Some (sigBytes, rest) =>
      match parseSignatureBody sigBytes with
      | Some (out, []) => Some (out, rest)
      | _ => None
      end
  end.

(** Modelled from the spec: [buildDataSignedForAuth] of client_auth.go,
    the data a publickey signature is computed over, [session_id || 0x32 ||
    user || service || method || 0x01 || algo || pubkey_blob]; of the
    request only the three names are used. *)
Definition buildDataSignedForAuth (sessionId : bytes) (req : userAuthRequestMsg)
    (algo pubKey : bytes) : bytes :=
  marshalString sessionId ++ [msgUserAuthRequest]
    ++ marshalStr (User req) ++ marshalStr (Service req) ++ marshalStr (Method req)
    ++ marshalBool true ++ marshalString algo ++ marshalString pubKey.

(** ** Stateful code: a state and outcome monad *)

Definition M (S A : Type) : Type := S -> outcome A * S.

Definition ret {S A : Type} (a : A) : M S A := fun s => (Ret a, s).

Definition fail {S A : Type} (e : error) : M S A := fun s => (Fail e, s).

Definition panic {S A : Type} (why : string) : M S A := fun s => (Panic why, s).

Definition bind {S A B : Type} (m : M S A) (k : A -> M S B) : M S B :=
  fun s =>
    match m s with
    | (Ret a, s') => k a s'
    | (Fail e, s') => (Fail e, s')
    | (Panic why, s') => (Panic why, s')
    end.

Definition liftOutcome {S A : Type} (o : outcome A) : M S A := fun s => (o, s).

Declare Scope go_scope.
Delimit Scope go_scope with go.
Notation "x <- m ;; k" := (bind m (fun x => k))
  (at level 100, m at next level, right associativity) : go_scope.
Local Open Scope go_scope.

(** ** Transports and connections *)

(** Modelled from the spec: the transport of handshake.go and
    transport.go, the packet channel the core consumes through
    [readPacket], [writePacket], [getSessionID] and [Close].  Its state is
    the packets the peer will deliver, the packets written so far, and how
    many more writes the channel takes before it breaks.  Reading past the
    last packet and writing to a broken or closed channel return an
    error. *)
Record handshakeTransport : Type := mkTransport {
  sessionID : bytes;
  Rand : ioReader;
  incoming : list bytes;
  outgoing : list bytes;
  writable : nat;
  closed : bool
}.

Definition getSessionID (t : handshakeTransport) : bytes := sessionID t.

Definition readPacket : M handshakeTransport bytes :=
  fun t =>
    if closed t then (Fail errEOF, t)
    else
      match incoming t with
      | [] => (Fail errEOF, t)
      | p :: rest =>
          (Ret p, mkTransport (sessionID t) (Rand t) rest (outgoing t) (writable t) (closed t))
      end.

Definition writePacket (p : bytes) : M handshakeTransport unit :=
  fun t =>
    if closed t then (Fail errWrite, t)
    else
      match writable t with
      | O => (Fail errWrite, t)
      | S n =>
          (Ret tt, mkTransport (sessionID t) (Rand t) (incoming t) (outgoing t ++ [p]) n (closed t))
      end.

Definition closeTransport (t : handshakeTransport) : handshakeTransport :=
  mkTransport (sessionID t) (Rand t) (incoming t) (outgoing t) (writable t) true.

(** [connection]: the transport plus the user name; it is also what the
    callbacks see as [ConnMetadata]. *)
Record connection : Type := mkConnection {
  user : string;
  transport : handshakeTransport
}.

Record pipedConn : Type := mkPipedConn {
  upstream : connection;
  downstream : connection
}.

Definition setTransport (c : connection) (t : handshakeTransport) : connection :=
  mkConnection (user c) t.

Definition onTransport {A : Type} (m : M handshakeTransport A) : M connection A :=
  fun c => let (r, t) := m (transport c) in (r, setTransport c t).

Definition onUpstream {A : Type} (m : M connection A) : M pipedConn A :=
  fun p => let (r, u) := m (upstream p) in (r, mkPipedConn u (downstream p)).

Definition onDownstream {A : Type} (m : M connection A) : M pipedConn A :=
  fun p => let (r, d) := m (downstream p) in (r, mkPipedConn (upstream p) d).

Definition closeConnection (c : connection) : connection :=
  mkConnection (user c) (closeTransport (transport c)).

(** [pipedConn.Close] *)
Definition Close (pipe : pipedConn) : pipedConn :=
  mkPipedConn (closeConnection (upstream pipe)) (closeConnection (downstream pipe)).

(** A raw socket, before any handshake. *)
Record netConn : Type := mkNetConn {
  RemoteAddr : string;
  connId : nat
}.

(** ** The rest of package ssh

    What the relay calls and the sources do not contain: the algorithm
    allow-list, the key parser, the key probe of client_auth.go, and the
    version and key exchange of either side (everything the two
    [...HandshakeNoAuth] functions do up to and including
    [requestKeyChange]).  [validateKey] works on the transport it is
    given and returns Go's [(bool, error)] pair. *)
Class SSHLibrary : Type := {
  isAcceptableAlgo : string -> bool;
  ParsePublicKey : bytes -> outcome PublicKey;
  validateKey : PublicKey -> string -> handshakeTransport
                -> (bool * option error) * handshakeTransport;
  serverKeyExchange : netConn -> list Signer -> outcome handshakeTransport;
  clientKeyExchange : netConn -> string -> outcome handshakeTransport
}.

(** ** Configuration *)

Record SSHPiperConfig : Type := mkSSHPiperConfig {
  hostKeys : list Signer;
  AdditionalChallenge : option (connection -> (bool * option error) * connection);
  FindUpstream : option (connection -> option netConn * string * option error);
  MapPublicKey : option (connection -> PublicKey -> option Signer * option error)
}.

(** ** Host keys *)

(** The loop of [AddHostKey] over [s.hostKeys]: it overwrites the first
    key of the same type and returns; falling out of the loop appends. *)
Fixpoint addHostKey (hostKeys : list Signer) (key : Signer) : list Signer :=
  match hostKeys with
  | [] => [key]
  | k :: rest =>
      if String.eqb (Type' (signerPublicKey k)) (Type' (signerPublicKey key))
      then key :: rest
      else k :: addHostKey rest key
  end.

Definition AddHostKey (s : SSHPiperConfig) (key : Signer) : SSHPiperConfig :=
  mkSSHPiperConfig (addHostKey (hostKeys s) key)
    (AdditionalChallenge s) (FindUpstream s) (MapPublicKey s).

Definition keyType (k : Signer) : string := Type' (signerPublicKey k).

Definition hasType (ty : string) (k : Signer) : bool := String.eqb (keyType k) ty.

(** ** The authentication relay *)

Section Relay.

Context {lib : SSHLibrary}.

Definition noneAuthMsg (user : string) : userAuthRequestMsg :=
  mkUserAuthRequestMsg user serviceSSH "none" [].

(** [msg.User = mappedUser] *)
Definition setUser (msg : userAuthRequestMsg) (u : string) : userAuthRequestMsg :=
  mkUserAuthRequestMsg u (Service msg) (Method msg) (Payload msg).

(** [parsePublicKeyMsg] returns the key, [isQuery] and the signature
    pointer, which stays nil ([None]) in query form. *)
Definition parsePublicKeyMsg (userAuthReq : userAuthRequestMsg)
  : outcome (PublicKey * bool * option Signature) :=
  if negb (String.eqb (Method userAuthReq) "publickey")
  then Fail (errorString "not a publickey auth msg")
  else
    match Payload userAuthReq with
    | [] => Fail (parseError msgUserAuthRequest)
    | b :: payload =>
        let isQuery := Byte.eqb b x00 in
        match parseString payload with
        | None => Fail (parseError msgUserAuthRequest)
        | Some (algoBytes, payload) =>
            let algo := stringOf algoBytes in
            if negb (isAcceptableAlgo algo) then Fail (errAlgoNotAccepted algo)
            else
              match parseString payload with
              | None => Fail (parseError msgUserAuthRequest)
              | Some (pubKeyData, payload) =>
                  match ParsePublicKey pubKeyData with
                  | Fail e => Fail e
                  | Panic why => Panic why
                  | Ret pubKey =>
                      if negb isQuery then
                        match parseSignature payload with
                        | None => Fail (parseError msgUserAuthRequest)
                        | Some (sig, payload) =>
                            if (0 <? List.length payload)%nat
                            then Fail (parseError msgUserAuthRequest)
                            else Ret (pubKey, isQuery, Some sig)
                        end
                      else Ret (pubKey, isQuery, None)
                  end
              end
        end
    end.

Definition validAndAck (user : string) (upKey downKey : PublicKey)
  : M pipedConn (option userAuthRequestMsg) :=
  fun pipe =>
    let '((ok, _), upT) := validateKey upKey user (transport (upstream pipe)) in
    let pipe := mkPipedConn (setTransport (upstream pipe) upT) (downstream pipe) in
    if ok then
      let okMsg := mkUserAuthPubKeyOkMsg (Type' downKey) (pubMarshal downKey) in
      (_ <- onDownstream (onTransport (writePacket (Marshal okMsg))) ;;
       ret None) pipe
    else (Ret (Some (noneAuthMsg user)), pipe).

(** [sig] is a pointer in Go; reading [sig.Format] through a nil one panics. *)
Definition checkPublicKey (msg : userAuthRequestMsg) (pubkey : PublicKey)
    (sig : option Signature) (pipe : pipedConn) : outcome bool :=
  match sig with
  | None => Panic "nil pointer dereference"
  | Some sig =>
      if negb (isAcceptableAlgo (Format sig)) then Ret false
      else
        let signedData :=
          buildDataSignedForAuth (getSessionID (transport (downstream pipe))) msg
            (bytesOf (Type' pubkey)) (pubMarshal pubkey) in
        match Verify pubkey signedData sig with
        | Some _ => Ret false
        | None => Ret true
        end
  end.

Definition signAgain (user : string) (msg : userAuthRequestMsg) (signer : Signer)
    (downKey : PublicKey) (pipe : pipedConn) : outcome userAuthRequestMsg :=
  let rand := Rand (transport (upstream pipe)) in
  let session := getSessionID (transport (upstream pipe)) in
  let upKey := signerPublicKey signer in
  let upKeyData := pubMarshal upKey in
  match Sign signer rand
          (buildDataSignedForAuth session
             (mkUserAuthRequestMsg user serviceSSH "publickey" [])
             (bytesOf (Type' upKey)) upKeyData) with
  | Fail e => Fail e
  | Panic why => Panic why
  | Ret sign =>
      let s := Marshal sign in
      let sig := marshalString s in
      let pubkeyMsg :=
        mkPublickeyAuthMsg user serviceSSH "publickey" true (Type' upKey) upKeyData sig in
      Ret (fst (Unmarshal_userAuthRequestMsg (Marshal pubkeyMsg) msg))
  end.

(** The closure [p.processAuthMsg] of [NewSSHPiperConn]; [d] is the
    downstream connection of the pipe.

    In the signed branch [ok, err := p.checkPublicKey(...)] declares a
    new [err] inside the [else] block, so [msg, err = p.signAgain(...)]
    stores the error of [signAgain] in that inner variable while setting
    [msg] to nil: the test [if err != nil] after the block reads the outer
    [err], which is nil there, and the closure returns [(nil, nil)]. *)
Definition processAuthMsg (piper : SSHPiperConfig) (mappedUser : string)
    (msg : userAuthRequestMsg) : M pipedConn (option userAuthRequestMsg) :=
  fun p =>
    if negb (String.eqb (Method msg) "publickey") then
      (Ret (Some (setUser msg mappedUser)), p)
    else
      match MapPublicKey piper with
      | None => (Ret (Some (setUser msg mappedUser)), p)
      | Some mapPublicKey =>
          let user := User msg in
          match parsePublicKeyMsg msg with
          | Fail e => (Fail e, p)
          | Panic why => (Panic why, p)
          | Ret (downKey, isQuery, sig) =>
              match mapPublicKey (downstream p) downKey with
              | (_, Some _) => (Ret (Some (noneAuthMsg user)), p)
              | (None, None) => (Ret (Some (noneAuthMsg user)), p)
              | (Some signer, None) =>
                  let upKey := signerPublicKey signer in
                  if isQuery then validAndAck mappedUser upKey downKey p
                  else
                    match checkPublicKey msg downKey sig p with
                    | Fail e => (Fail e, p)
                    | Panic why => (Panic why, p)
                    | Ret false => (Ret (Some (noneAuthMsg user)), p)
                    | Ret true =>
                        match signAgain mappedUser msg signer downKey p with
                        | Fail _ => (Ret None, p)
                        | Panic why => (Panic why, p)
                        | Ret msg => (Ret (Some msg), p)
                        end
                    end
              end
          end
      end.

Definition sendAuthReq : M handshakeTransport unit :=
  _ <- writePacket (Marshal (mkServiceRequestMsg serviceUserAuth)) ;;
  packet <- readPacket ;;
  _ <- liftOutcome (Unmarshal_service msgServiceAccept packet) ;;
  ret tt.

Definition nextAuthMsg : M connection userAuthRequestMsg :=
  packet <- onTransport readPacket ;;
  match Unmarshal_userAuthRequestMsg packet emptyUserAuthRequestMsg with
  | (_, Some e) => fail e
  | (userAuthReq, None) =>
      if negb (String.eqb (Service userAuthReq) serviceSSH)
      then fail (errorString ("ssh: client attempted to negotiate for unknown service: "
                               ++ Service userAuthReq))
      else ret userAuthReq
  end.

(** One turn of the [for] loop of [pipeAuth]: [inl tt] is [return nil],
    [inr m] goes round again with the next downstream request [m]. *)
Definition pipeAuthIteration
    (process : userAuthRequestMsg -> M pipedConn (option userAuthRequestMsg))
    (userAuthMsg : userAuthRequestMsg) : M pipedConn (unit + userAuthRequestMsg) :=
  userAuthMsg <- process userAuthMsg ;;
  success <-
    match userAuthMsg with
    | Some m =>
        _ <- onUpstream (onTransport (writePacket (Marshal m))) ;;
        packet <- onUpstream (onTransport readPacket) ;;
        match packet with
        | [] => panic "index out of range"
        | t :: _ =>
            let success := Byte.eqb t msgUserAuthSuccess in
            _ <- onDownstream (onTransport (writePacket packet)) ;;
            ret success
        end
    | None => ret false
    end ;;
  if success then ret (inl tt)
  else
    next <- onDownstream nextAuthMsg ;;
    ret (inr next).

(** The loop, with a bound on the number of turns; [None] when the
    bound is reached. *)
Fixpoint pipeAuthLoop (turns : nat)
    (process : userAuthRequestMsg -> M pipedConn (option userAuthRequestMsg))
    (userAuthMsg : userAuthRequestMsg) (pipe : pipedConn)
  : option (outcome unit * pipedConn) :=
  match turns with
  | O => None
  | S turns =>
      match pipeAuthIteration process userAuthMsg pipe with
      | (Ret (inl _), pipe) => Some (Ret tt, pipe)
      | (Ret (inr next), pipe) => pipeAuthLoop turns process next pipe
      | (Fail e, pipe) => Some (Fail e, pipe)
      | (Panic why, pipe) => Some (Panic why, pipe)
      end
  end.

(** Every turn that goes round again has read one downstream packet, so
    one more turn than there are packets to read is enough. *)
Definition pipeAuthTurns (pipe : pipedConn) : nat :=
  S (List.length (incoming (transport (downstream pipe)))).

Definition pipeAuth
    (process : userAuthRequestMsg -> M pipedConn (option userAuthRequestMsg))
    (initUserAuthMsg : userAuthRequestMsg) : M pipedConn unit :=
  fun pipe =>
    match onUpstream (onTransport sendAuthReq) pipe with
    | (Fail e, pipe) => (Fail e, pipe)
    | (Panic why, pipe) => (Panic why, pipe)
    | (Ret _, pipe) =>
        match pipeAuthLoop (pipeAuthTurns pipe) process initUserAuthMsg pipe with
        | Some r => r
        | None => (Panic "pipeAuth: turn bound reached", pipe)
        end
    end.

End Relay.

(** ** Setting up a piped connection *)

(** What [NewSSHPiperConn] does outside the two transports, in order:
    the handshakes it starts on a socket, the sockets it closes, and its
    calls of the configured callbacks. *)
Inductive event : Type :=
| EvServerHandshake (c : netConn)
| EvClientHandshake (c : netConn) (addr : string)
| EvCloseSocket (c : netConn)
| EvAdditionalChallenge (ok : bool) (err : option error)
| EvFindUpstream (err : option error).

(** The events of a run and the two connections as the run leaves them
    ([None] for one that was never established). *)
Record session : Type := mkSession {
  events : list event;
  finalDownstream : option connection;
  finalUpstream : option connection
}.

Section Piper.

Context {lib : SSHLibrary}.

(** The packets a handshake handles after the key exchange. *)
Definition expectNewKeys : M handshakeTransport unit :=
  packet <- readPacket ;;
  match packet with
  | [] => panic "index out of range"
  | t :: _ =>
      if negb (Byte.eqb t msgNewKeys) then fail (unexpectedMessageError msgNewKeys t)
      else ret tt
  end.

Definition clientHandshakeNoAuth (c : netConn) (dialAddress : string)
  : outcome handshakeTransport :=
  match clientKeyExchange c dialAddress with
  | Fail e => Fail e
  | Panic why => Panic why
  | Ret tr =>
      match expectNewKeys tr with
      | (Ret _, tr) => Ret tr
      | (Fail e, _) => Fail e
      | (Panic why, _) => Panic why
      end
  end.

Definition serverHandshakeNoAuth (c : netConn) (hostKeys : list Signer)
  : outcome handshakeTransport :=
  if (List.length hostKeys =? 0)%nat
  then Fail (errorString "ssh: server has no host keys")
  else
    match serverKeyExchange c hostKeys with
    | Fail e => Fail e
    | Panic why => Panic why
    | Ret tr =>
        match (_ <- expectNewKeys ;;
               packet <- readPacket ;;
               service <- liftOutcome (Unmarshal_service msgServiceRequest packet) ;;
               if negb (String.eqb service serviceUserAuth)
               then fail (errorString ("ssh: requested service '" ++ service ++ "' before authenticating"))
               else writePacket (Marshal (mkServiceAcceptMsg serviceUserAuth))) tr with
        | (Ret _, tr) => Ret tr
        | (Fail e, _) => Fail e
        | (Panic why, _) => Panic why
        end
    end.

(** [newDownstream] and [newUpstream] close the socket when the
    handshake returns an error. *)
Definition newDownstream (c : netConn) (hostKeys : list Signer)
  : outcome connection * list event :=
  match serverHandshakeNoAuth c hostKeys with
  | Ret tr => (Ret (mkConnection EmptyString tr), [EvServerHandshake c])
  | Fail e => (Fail e, [EvServerHandshake c; EvCloseSocket c])
  | Panic why => (Panic why, [EvServerHandshake c])
  end.

Definition newUpstream (c : netConn) (addr : string)
  : outcome connection * list event :=
  match clientHandshakeNoAuth c addr with
  | Ret tr => (Ret (mkConnection EmptyString tr), [EvClientHandshake c addr])
  | Fail e => (Fail e, [EvClientHandshake c addr; EvCloseSocket c])
  | Panic why => (Panic why, [EvClientHandshake c addr])
  end.

(** The [for] loop that asks for keyboard-interactive, with a bound on
    the number of turns; each turn reads one downstream packet. *)
Fixpoint challengeLoop (turns : nat) (d : connection)
  : option (outcome unit * connection) :=
  match turns with
  | O => None
  | S turns =>
      match (_ <- onTransport (writePacket
                    (Marshal (mkUserAuthFailureMsg ["keyboard-interactive"] false))) ;;
             userAuthReq <- nextAuthMsg ;;
             ret (String.eqb (Method userAuthReq) "keyboard-interactive")) d with
      | (Ret true, d) => Some (Ret tt, d)
      | (Ret false, d) => challengeLoop turns d
      | (Fail e, d) => Some (Fail e, d)
      | (Panic why, d) => Some (Panic why, d)
      end
  end.

(** The [if piper.AdditionalChallenge != nil] block. *)
Definition additionalChallenge (piper : SSHPiperConfig) (d : connection)
  : (outcome unit * connection) * list event :=
  match AdditionalChallenge piper with
  | None => ((Ret tt, d), [])
  | Some challenge =>
      match challengeLoop (S (List.length (incoming (transport d)))) d with
      | None => ((Panic "challenge: turn bound reached", d), [])
      | Some (Fail e, d) => ((Fail e, d), [])
      | Some (Panic why, d) => ((Panic why, d), [])
      | Some (Ret _, d) =>
          let '((ok, err), d) := challenge d in
          let ev := [EvAdditionalChallenge ok err] in
          match err with
          | Some e => ((Fail e, d), ev)
          | None =>
              if negb ok then ((Fail (errorString "additional challenge failed"), d), ev)
              else ((Ret tt, d), ev)
          end
      end
  end.

(** From the call of [FindUpstream] to the end: [d] is the downstream
    connection and [userAuthReq] the first request read from it. *)
Definition connectUpstream (piper : SSHPiperConfig)
    (findUpstream : connection -> option netConn * string * option error)
    (userAuthReq : userAuthRequestMsg) (d : connection)
  : outcome pipedConn * session :=
  let '(upconn, mappedUser, err) := findUpstream d in
  let ev := [EvFindUpstream err] in
  match err with
  | Some e => (Fail e, mkSession ev (Some (closeConnection d)) None)
  | None =>
      match upconn with
      | None => (Panic "nil pointer dereference", mkSession ev (Some (closeConnection d)) None)
      | Some upconn =>
          let addr := RemoteAddr upconn in
          let mappedUser := if String.eqb mappedUser EmptyString then user d else mappedUser in
          match newUpstream upconn addr with
          | (Fail e, ev') => (Fail e, mkSession (ev ++ ev') (Some (closeConnection d)) None)
          | (Panic why, ev') => (Panic why, mkSession (ev ++ ev') (Some (closeConnection d)) None)
          | (Ret u, ev') =>
              let p := mkPipedConn u d in
              match pipeAuth (processAuthMsg piper mappedUser) userAuthReq p with
              | (Ret _, p) =>
                  (Ret p, mkSession (ev ++ ev') (Some (downstream p)) (Some (upstream p)))
              | (Fail e, p) =>
                  (Fail e, mkSession (ev ++ ev')
                             (Some (closeConnection (downstream p)))
                             (Some (closeConnection (upstream p))))
              | (Panic why, p) =>
                  (Panic why, mkSession (ev ++ ev')
                                (Some (closeConnection (downstream p)))
                                (Some (closeConnection (upstream p))))
              end
          end
      end
  end.

Definition prependEvents {A : Type} (ev : list event) (r : outcome A * session)
  : outcome A * session :=
  (fst r, mkSession (ev ++ events (snd r)) (finalDownstream (snd r)) (finalUpstream (snd r))).

Definition NewSSHPiperConn (conn : netConn) (piper : SSHPiperConfig)
  : outcome pipedConn * session :=
  match FindUpstream piper with
  | None => (Panic "FindUpstream func not found", mkSession [] None None)
  | Some findUpstream =>
      match newDownstream conn (hostKeys piper) with
      | (Fail e, ev) => (Fail e, mkSession ev None None)
      | (Panic why, ev) => (Panic why, mkSession ev None None)
      | (Ret d, ev) =>
          match nextAuthMsg d with
          | (Fail e, d) => (Fail e, mkSession ev (Some (closeConnection d)) None)
          | (Panic why, d) => (Panic why, mkSession ev (Some (closeConnection d)) None)
          | (Ret userAuthReq, d) =>
              let d := mkConnection (User userAuthReq) (transport d) in
              match additionalChallenge piper d with
              | ((Fail e, d), ev') =>
                  (Fail e, mkSession (ev ++ ev') (Some (closeConnection d)) None)
              | ((Panic why, d), ev') =>
                  (Panic why, mkSession (ev ++ ev') (Some (closeConnection d)) None)
              | ((Ret _, d), ev') =>
                  prependEvents (ev ++ ev') (connectUpstream piper findUpstream userAuthReq d)
              end
          end
      end
  end.

End Piper.

(** ** A small instance of the library, for concrete runs

    Keys whose signature over [data] is the key's secret followed by
    [data]; a probe that writes the query-form request and takes
    [SSH_MSG_USERAUTH_PK_OK] as acceptance; key exchanges that hand out
    a transport whose peer delivers a given list of packets. *)

Module Toy.

Definition verifyWith (secret data : bytes) (sig : Signature) : option error :=
  if bytes_eqb (Blob sig) (secret ++ data) then None
  else Some (errorString "ssh: signature did not verify").

Definition key (ty : string) (secret : bytes) : PublicKey :=
  mkPublicKey ty (marshalStr ty ++ marshalString secret) (verifyWith secret).

Definition signer (ty : string) (secret : bytes) : Signer :=
  mkSigner (key ty secret) (fun _ data => Ret (mkSignature ty (secret ++ data))).

Definition acceptable (algo : string) : bool :=
  existsb (String.eqb algo) ["ssh-rsa"; "ssh-dss"; "ssh-ed25519"; "ecdsa-sha2-nistp256"].

Definition parseKey (data : bytes) : outcome PublicKey :=
  match parseString data with
  | Some (ty, rest) =>
      match parseString rest with
      | Some (secret, []) => Ret (key (stringOf ty) secret)
      | _ => Fail errShortRead
      end
  | None => Fail errShortRead
  end.

Definition probe (k : PublicKey) (user : string) (t : handshakeTransport)
  : (bool * option error) * handshakeTransport :=
  let query := mkPublickeyAuthMsg user serviceSSH "publickey" false (Type' k) (pubMarshal k) [] in
  match writePacket (Marshal query) t with
  | (Ret _, t) =>
      match readPacket t with
      | (Ret (b :: _), t) => ((Byte.eqb b msgUserAuthPubKeyOk, None), t)
      | (Ret [], t) => ((false, Some (parseError msgUserAuthPubKeyOk)), t)
      | (Fail e, t) => ((false, Some e), t)
      | (Panic _, t) => ((false, Some errEOF), t)
      end
  | (Fail e, t) => ((false, Some e), t)
  | (Panic _, t) => ((false, Some errWrite), t)
  end.

Definition peer (sid : bytes) (script : list bytes) : handshakeTransport :=
  mkTransport sid [] script [] 16 false.

#[export] Instance lib (downScript upScript : list bytes) : SSHLibrary := {|
  isAcceptableAlgo := acceptable;
  ParsePublicKey := parseKey;
  validateKey := probe;
  serverKeyExchange := fun _ _ => Ret (peer [x0d] downScript);
  clientKeyExchange := fun _ _ => Ret (peer [x0e] upScript)
|}.

(** The downstream key, the key the proxy substitutes, and requests of
    user alice in both forms. *)
Definition downKey : PublicKey := key "ssh-rsa" [x11; x12].
Definition upSigner : Signer := signer "ssh-ed25519" [x21; x22; x23].

Definition queryPayload (k : PublicKey) : bytes :=
  x00 :: marshalStr (Type' k) ++ marshalString (pubMarshal k).

Definition signedPayload (algo : string) (k : PublicKey) (sig : Signature) : bytes :=
  x01 :: marshalStr algo ++ marshalString (pubMarshal k) ++ marshalString (Marshal sig).

Definition request (method : string) (payload : bytes) : userAuthRequestMsg :=
  mkUserAuthRequestMsg "alice" serviceSSH method payload.

Definition pipe (downScript upScript : list bytes) : pipedConn :=
  mkPipedConn (mkConnection EmptyString (peer [x0e] upScript))
              (mkConnection "alice" (peer [x0d] downScript)).

(** The signature alice's client makes with the downstream key. *)
Definition downSignature (p : pipedConn) : Signature :=
  mkSignature "ssh-rsa"
    ([x11; x12] ++ buildDataSignedForAuth (sessionID (transport (downstream p)))
                     (request "publickey" []) (bytesOf "ssh-rsa") (pubMarshal downKey)).

Definition config (mapPublicKey : option (connection -> PublicKey -> option Signer * option error))
  : SSHPiperConfig :=
  mkSSHPiperConfig [] None (Some (fun _ => (Some (mkNetConn "up:22" 1), "bob", None)))
    mapPublicKey.

Definition mapToUp : connection -> PublicKey -> option Signer * option error :=
  fun _ _ => (Some upSigner, None).

Definition mapNothing : connection -> PublicKey -> option Signer * option error :=
  fun _ _ => (None, None).

End Toy.

(** Lengths that fit the 32-bit length field of the wire format. *)
Definition fits32 (n : nat) : Prop := (N.of_nat n < 4294967296)%N.

(** Requests used in the concrete runs below. *)
Module ToyRuns.

(** A signature whose format is on no allow-list. *)
Definition bogusSignature : Signature := mkSignature "bogus" [x00].

(** A signed request whose algorithm name and signature format are both
    the unknown ["bogus"]. *)
Definition bogusRequest : userAuthRequestMsg :=
  Toy.request "publickey" (Toy.signedPayload "bogus" Toy.downKey bogusSignature).

(** A signed request with an accepted algorithm name and a signature of
    unknown format. *)
Definition bogusFormatRequest : userAuthRequestMsg :=
  Toy.request "publickey" (Toy.signedPayload "ssh-rsa" Toy.downKey bogusSignature).

(** A query and a correctly signed request for the downstream key. *)
Definition queryRequest : userAuthRequestMsg :=
  Toy.request "publickey" (Toy.queryPayload Toy.downKey).

Definition signedRequest : userAuthRequestMsg :=
  Toy.request "publickey"
    (Toy.signedPayload "ssh-rsa" Toy.downKey (Toy.downSignature (Toy.pipe [] []))).

(** A signed request whose signature does not verify. *)
Definition forgedRequest : userAuthRequestMsg :=
  Toy.request "publickey"
    (Toy.signedPayload "ssh-rsa" Toy.downKey (mkSignature "ssh-rsa" [x00])).

(** A query followed by two stray bytes, and the same after a signed
    request. *)
Definition queryWithTrailing : userAuthRequestMsg :=
  Toy.request "publickey" (Toy.queryPayload Toy.downKey ++ [xff; xfe]).

Definition signedWithTrailing : userAuthRequestMsg :=
  Toy.request "publickey"
    (Toy.signedPayload "ssh-rsa" Toy.downKey (Toy.downSignature (Toy.pipe [] []))
       ++ [xff; xfe]).

End ToyRuns.

(** The packets the downstream peer has still to deliver. *)
Definition downstreamIncoming (p : pipedConn) : list bytes :=
  incoming (transport (downstream p)).

(** Kinds of events. *)
Definition isFindUpstream (e : event) : bool :=
  match e with
  | EvFindUpstream _ => true
  | _ => false
  end.

Definition isSocketEvent (e : event) : bool :=
  match e with
  | EvServerHandshake _ | EvClientHandshake _ _ | EvCloseSocket _ => true
  | _ => false
  end.

(** Events of the sockets only: no callback is called. *)
Definition quiet (evs : list event) : Prop :=
  forall e, In e evs -> isSocketEvent e = true.

(** ** The packet pipe, one direction *)

(** What one call of [piping] works on: the transport it writes to, the
    transport it reads from, and the arguments of its [fmt.Println] calls
    so far. *)
Record pipingState : Type := mkPipingState {
  pipeDst : handshakeTransport;
  pipeSrc : handshakeTransport;
  stdout : list string
}.

(** The [for] loop of [piping], with a bound on the number of turns;
    [None] when the bound is reached.  The loop has no [return nil]. *)
Fixpoint pipingLoop (turns : nat) (st : pipingState) : option (outcome unit * pipingState) :=
  match turns with
  | O => None
  | S turns =>
      match readPacket (pipeSrc st) with
      | (Fail e, src) => Some (Fail e, mkPipingState (pipeDst st) src (stdout st))
      | (Panic why, src) => Some (Panic why, mkPipingState (pipeDst st) src (stdout st))
      | (Ret p, src) =>
          let out := stdout st ++ [stringOf p] in
          match writePacket p (pipeDst st) with
          | (Fail e, dst) => Some (Fail e, mkPipingState dst src out)
          | (Panic why, dst) => Some (Panic why, mkPipingState dst src out)
          | (Ret _, dst) => pipingLoop turns (mkPipingState dst src out)
          end
      end
  end.

(** Every turn that goes round again has read one packet of [src]. *)
Definition piping (dst src : handshakeTransport) (printed : list string)
  : outcome unit * pipingState :=
  let st := mkPipingState dst src printed in
  match pipingLoop (S (List.length (incoming src))) st with
  | Some r => r
  | None => (Panic "piping: turn bound reached", st)
  end.

(** Library instances and configurations that fail, for concrete runs. *)
Module ToyFaults.

(** A signer whose [Sign] returns an error. *)
Definition failingSigner : Signer :=
  mkSigner (Toy.key "ssh-ed25519" [x21; x22; x23]) (fun _ _ => Fail (errExternal 7)).

Definition mapToFailing : connection -> PublicKey -> option Signer * option error :=
  fun _ _ => (Some failingSigner, None).

(** A pipe whose upstream answers the probe with SSH_MSG_USERAUTH_PK_OK
    and whose downstream takes no more writes. *)
Definition stuckDownstream : pipedConn :=
  mkPipedConn (mkConnection EmptyString (Toy.peer [x0e] [[x3c]]))
              (mkConnection "alice" (mkTransport [x0d] [] [] [] 0 false)).

End ToyFaults.

(** A packet that is a marshalled auth request of user [u]. *)
Definition carriesUser (u : string) (pkt : bytes) : Prop :=
  exists m : userAuthRequestMsg, pkt = Marshal m /\ User m = u.

(* ================================================================= *)
(** * Theorems *)

Unset Implicit Arguments.

(** ** Host keys *)

Lemma addHostKey_absent (hostKeys : list Signer) (key : Signer) :
  existsb (hasType (keyType key)) hostKeys = false ->
  addHostKey hostKeys key = hostKeys ++ [key].
Proof.
  induction hostKeys as [|k rest IH]; simpl; intros Hno.
  - reflexivity.
  - apply orb_false_iff in Hno. destruct Hno as [Hk Hrest].
    unfold hasType, keyType in Hk. rewrite Hk.
    now rewrite (IH Hrest).
Qed.

Lemma addHostKey_present (hostKeys : list Signer) (key : Signer) :
  existsb (hasType (keyType key)) hostKeys = true ->
  exists before old after,
    hostKeys = before ++ old :: after /\
    keyType old = keyType key /\
    existsb (hasType (keyType key)) before = false /\
    addHostKey hostKeys key = before ++ key :: after.
Proof.
  induction hostKeys as [|k rest IH]; simpl; intros Hyes.
  - discriminate.
  - destruct (String.eqb (Type' (signerPublicKey k)) (Type' (signerPublicKey key))) eqn:Hk.
    + exists [], k, rest. repeat split.
      now apply String.eqb_eq in Hk.
    + unfold hasType, keyType in Hyes. rewrite Hk in Hyes. simpl in Hyes.
      destruct (IH Hyes) as (before & old & after & Heq & Hty & Hbefore & Hadd).
      exists (k :: before), old, after. repeat split.
      * simpl. now rewrite Heq.
      * exact Hty.
      * simpl. unfold hasType at 1, keyType at 1 2. now rewrite Hk.
      * simpl. now rewrite Hadd.
Qed.

(** Distinct key types stay distinct, so there is at most one key of a
    type to replace. *)
Lemma addHostKey_NoDup (hostKeys : list Signer) (key : Signer) :
  NoDup (map keyType hostKeys) -> NoDup (map keyType (addHostKey hostKeys key)).
Proof.
  induction hostKeys as [|k rest IH]; cbn [addHostKey map]; intros Hnd.
  - constructor; [intros [] | constructor].
  - fold (keyType k). fold (keyType key).
    destruct (String.eqb (keyType k) (keyType key)) eqn:Hk.
    + apply String.eqb_eq in Hk. cbn [map]. now rewrite <- Hk.
    + inversion Hnd as [|? ? Hnotin Hrest]; subst. cbn [map]. constructor.
      * intros Hin. apply in_map_iff in Hin. destruct Hin as (x & Hx & Hin).
        assert (Hcases : In x rest \/ x = key).
        { clear - Hin. induction rest as [|r rest IHr]; cbn [addHostKey] in Hin.
          - destruct Hin as [<- | []]. now right.
          - destruct (String.eqb _ _).
            + destruct Hin as [<- | Hin]; [now right | left; now right].
            + destruct Hin as [<- | Hin]; [left; now left|].
              destruct (IHr Hin); [left; now right | now right]. }
        destruct Hcases as [Hrest' | ->].
        -- apply Hnotin. apply in_map_iff. now exists x.
        -- apply String.eqb_neq in Hk. congruence.
      * now apply IH.
Qed.

(** C9. [AddHostKey] replaces the existing host key whose public-key type
    equals the type of the new key, when there is one, leaving every other
    entry and the length of the list as they were; when there is none it
    appends the new key.  The callbacks of the configuration are kept. *)
Theorem AddHostKey_replaces_or_appends (s : SSHPiperConfig) (key : Signer) :
  let keys := hostKeys s in
  let keys' := hostKeys (AddHostKey s key) in
  ((existsb (hasType (keyType key)) keys = true /\
    List.length keys' = List.length keys /\
    exists before old after,
      keys = before ++ old :: after /\
      keyType old = keyType key /\
      existsb (hasType (keyType key)) before = false /\
      keys' = before ++ key :: after)
   \/
   (existsb (hasType (keyType key)) keys = false /\
    keys' = keys ++ [key]))
  /\ AdditionalChallenge (AddHostKey s key) = AdditionalChallenge s
  /\ FindUpstream (AddHostKey s key) = FindUpstream s
  /\ MapPublicKey (AddHostKey s key) = MapPublicKey s.
Proof.
  intros keys keys'. subst keys keys'. cbn [AddHostKey hostKeys].
  split; [|repeat split].
  destruct (existsb (hasType (keyType key)) (hostKeys s)) eqn:Hex.
  - left. split; [reflexivity|].
    destruct (addHostKey_present (hostKeys s) key Hex)
      as (before & old & after & Heq & Hty & Hbefore & Hadd).
    split.
    + rewrite Hadd, Heq. rewrite !length_app. reflexivity.
    + now exists before, old, after.
  - right. split; [reflexivity|]. now apply addHostKey_absent.
Qed.

(** ** Wire format *)

Lemma byteOfN_to_N (n : N) : Byte.to_N (byteOfN n) = (n mod 256)%N.
Proof.
  unfold byteOfN. destruct (Byte.of_N (n mod 256)) eqn:E.
  - now apply Byte.to_of_N.
  - apply Byte.of_N_None_iff in E. pose proof (N.mod_lt n 256). lia.
Qed.

Lemma bigEndian32 (n : N) :
  (n < 4294967296)%N ->
  (((n / 16777216) mod 256) * 16777216 + ((n / 65536) mod 256) * 65536
   + ((n / 256) mod 256) * 256 + (n mod 256))%N = n.
Proof.
  intros H. zify. Z.to_euclidean_division_equations. lia.
Qed.

Lemma parseUint32_marshalUint32 (n : N) (rest : bytes) :
  (n < 4294967296)%N ->
  parseUint32 (marshalUint32 n ++ rest) = Some (n, rest).
Proof.
  intros H. unfold marshalUint32, parseUint32. simpl.
  rewrite !byteOfN_to_N. now rewrite bigEndian32.
Qed.

Lemma parseString_marshalString (s rest : bytes) :
  fits32 (List.length (s ++ rest)) ->
  parseString (marshalString s ++ rest) = Some (s, rest).
Proof.
  unfold fits32. rewrite length_app. intros H.
  unfold parseString, marshalString. rewrite <- app_assoc.
  rewrite parseUint32_marshalUint32 by lia.
  unfold uint32. rewrite length_app.
  rewrite N.mod_small by lia.
  destruct (N.ltb_spec (N.of_nat (List.length s + List.length rest)) (N.of_nat (List.length s)));
    [lia|].
  rewrite Nat2N.id.
  rewrite firstn_app, Nat.sub_diag, firstn_all. simpl. rewrite app_nil_r.
  rewrite skipn_app, Nat.sub_diag, skipn_all. reflexivity.
Qed.

Lemma parseStr_marshalStr (s : string) (rest : bytes) :
  fits32 (List.length (bytesOf s ++ rest)) ->
  parseString (marshalStr s ++ rest) = Some (bytesOf s, rest).
Proof. apply parseString_marshalString. Qed.

Lemma stringOf_bytesOf (s : string) : stringOf (bytesOf s) = s.
Proof. apply string_of_list_byte_of_string. Qed.

Lemma length_marshalString (s : bytes) :
  List.length (marshalString s) = 4 + List.length s.
Proof. reflexivity. Qed.

Lemma parseSignature_marshal (sig : Signature) (rest : bytes) :
  fits32 (List.length (marshalString (Marshal sig) ++ rest)) ->
  parseSignature (marshalString (Marshal sig) ++ rest) = Some (sig, rest).
Proof.
  intros H. unfold parseSignature.
  assert (Hlen : List.length (marshalString (Marshal sig) ++ rest)
                 = 4 + List.length (Marshal sig) + List.length rest)
    by (rewrite length_app, length_marshalString; lia).
  unfold fits32 in H. rewrite Hlen in H.
  rewrite parseString_marshalString
    by (unfold fits32; rewrite length_app; lia).
  assert (Hsig : List.length (Marshal sig)
                 = 4 + List.length (bytesOf (Format sig)) + (4 + List.length (Blob sig))).
  { cbn [Marshal Marshal_Signature]. unfold marshalStr.
    rewrite length_app, !length_marshalString. lia. }
  unfold parseSignatureBody. cbn [Marshal Marshal_Signature].
  rewrite parseStr_marshalStr
    by (unfold fits32; rewrite length_app, length_marshalString; lia).
  replace (marshalString (Blob sig)) with (marshalString (Blob sig) ++ [])
    by apply app_nil_r.
  rewrite parseString_marshalString
    by (unfold fits32; rewrite length_app; simpl; lia).
  rewrite stringOf_bytesOf. now destruct sig.
Qed.

(** ** The per-message transform *)

Ltac fits_tac :=
  cbn [Marshal Marshal_publickeyAuthMsg Marshal_userAuthRequestMsg Marshal_Signature
       pkUser pkService pkMethod HasSig Algoname PubKey Sig] in *;
  unfold fits32, marshalStr, marshalBool in *;
  repeat (rewrite ?length_app, ?length_marshalString, ?length_cons in * );
  cbn [List.length] in *; lia.

Lemma Unmarshal_Marshal_publickeyAuthMsg (m : publickeyAuthMsg) (out : userAuthRequestMsg) :
  fits32 (List.length (Marshal m)) ->
  Unmarshal_userAuthRequestMsg (Marshal m) out
  = (mkUserAuthRequestMsg (pkUser m) (pkService m) (pkMethod m)
       (marshalBool (HasSig m) ++ marshalStr (Algoname m)
          ++ marshalString (PubKey m) ++ Sig m), None).
Proof.
  intros Hfit. unfold Unmarshal_userAuthRequestMsg.
  cbn [Marshal Marshal_publickeyAuthMsg].
  change (Byte.eqb msgUserAuthRequest msgUserAuthRequest) with true. cbn [negb].
  rewrite parseStr_marshalStr by fits_tac.
  rewrite parseStr_marshalStr by fits_tac.
  rewrite parseStr_marshalStr by fits_tac.
  cbn [User Service Method Payload]. now rewrite !stringOf_bytesOf.
Qed.

Section TransformFacts.

Context {lib : SSHLibrary}.

Lemma parsePublicKeyMsg_method (msg : userAuthRequestMsg) r :
  parsePublicKeyMsg msg = Ret r -> String.eqb (Method msg) "publickey" = true.
Proof.
  unfold parsePublicKeyMsg.
  destruct (String.eqb (Method msg) "publickey"); [reflexivity | discriminate].
Qed.

(** Requests that are not publickey, or any request when no key mapping
    is configured, go through with the user overwritten. *)
Lemma processAuthMsg_passthrough (piper : SSHPiperConfig) (mappedUser : string)
    (msg : userAuthRequestMsg) (p : pipedConn) :
  String.eqb (Method msg) "publickey" = false \/ MapPublicKey piper = None ->
  processAuthMsg piper mappedUser msg p = (Ret (Some (setUser msg mappedUser)), p).
Proof.
  unfold processAuthMsg. intros [H | H]; rewrite H; cbn [negb].
  - reflexivity.
  - now destruct (negb (String.eqb (Method msg) "publickey")).
Qed.

(** When the mapping yields no signer, or an error, the substituted
    request carries the user of the downstream request. *)
Lemma processAuthMsg_unmapped (piper : SSHPiperConfig) (mappedUser : string)
    (msg : userAuthRequestMsg) (p : pipedConn) mapKey downKey isQuery sig signer err :
  MapPublicKey piper = Some mapKey ->
  parsePublicKeyMsg msg = Ret (downKey, isQuery, sig) ->
  mapKey (downstream p) downKey = (signer, err) ->
  signer = None \/ err <> None ->
  processAuthMsg piper mappedUser msg p = (Ret (Some (noneAuthMsg (User msg))), p).
Proof.
  intros Hmap Hparse Hkey Hno. unfold processAuthMsg.
  rewrite (parsePublicKeyMsg_method _ _ Hparse). cbn [negb].
  rewrite Hmap, Hparse, Hkey.
  destruct err as [e|]; [now destruct signer|].
  destruct signer as [s|]; [|reflexivity].
  destruct Hno as [H | H]; [discriminate | now elim H].
Qed.

(** The query branch: the outcome of [validAndAck] is the outcome of
    the transform. *)
Lemma processAuthMsg_query (piper : SSHPiperConfig) (mappedUser : string)
    (msg : userAuthRequestMsg) (p : pipedConn) mapKey downKey sig signer :
  MapPublicKey piper = Some mapKey ->
  parsePublicKeyMsg msg = Ret (downKey, true, sig) ->
  mapKey (downstream p) downKey = (Some signer, None) ->
  processAuthMsg piper mappedUser msg p
  = validAndAck mappedUser (signerPublicKey signer) downKey p.
Proof.
  intros Hmap Hparse Hkey. unfold processAuthMsg.
  rewrite (parsePublicKeyMsg_method _ _ Hparse). cbn [negb].
  now rewrite Hmap, Hparse, Hkey.
Qed.

(** The signed branch. *)
Lemma processAuthMsg_signed (piper : SSHPiperConfig) (mappedUser : string)
    (msg : userAuthRequestMsg) (p : pipedConn) mapKey downKey sig signer :
  MapPublicKey piper = Some mapKey ->
  parsePublicKeyMsg msg = Ret (downKey, false, sig) ->
  mapKey (downstream p) downKey = (Some signer, None) ->
  processAuthMsg piper mappedUser msg p
  = match checkPublicKey msg downKey sig p with
    | Fail e => (Fail e, p)
    | Panic why => (Panic why, p)
    | Ret false => (Ret (Some (noneAuthMsg (User msg))), p)
    | Ret true =>
        match signAgain mappedUser msg signer downKey p with
        | Fail _ => (Ret None, p)
        | Panic why => (Panic why, p)
        | Ret m => (Ret (Some m), p)
        end
    end.
Proof.
  intros Hmap Hparse Hkey. unfold processAuthMsg.
  rewrite (parsePublicKeyMsg_method _ _ Hparse). cbn [negb].
  now rewrite Hmap, Hparse, Hkey.
Qed.

(** What [signAgain] returns when the signer signs. *)
Lemma signAgain_rebuilds (user : string) (msg : userAuthRequestMsg) (signer : Signer)
    (downKey : PublicKey) (p : pipedConn) (sign : Signature) :
  let upKey := signerPublicKey signer in
  let pubkeyMsg :=
    mkPublickeyAuthMsg user serviceSSH "publickey" true (Type' upKey)
      (pubMarshal upKey) (marshalString (Marshal sign)) in
  Sign signer (Rand (transport (upstream p)))
    (buildDataSignedForAuth (sessionID (transport (upstream p)))
       (mkUserAuthRequestMsg user serviceSSH "publickey" [])
       (bytesOf (Type' upKey)) (pubMarshal upKey)) = Ret sign ->
  fits32 (List.length (Marshal pubkeyMsg)) ->
  signAgain user msg signer downKey p
  = Ret (mkUserAuthRequestMsg user serviceSSH "publickey"
           (x01 :: marshalStr (Type' upKey) ++ marshalString (pubMarshal upKey)
              ++ marshalString (Marshal sign))).
Proof.
  intros upKey pubkeyMsg Hsign Hfit. unfold signAgain, getSessionID.
  fold upKey. rewrite Hsign.
  fold pubkeyMsg. now rewrite Unmarshal_Marshal_publickeyAuthMsg.
Qed.

End TransformFacts.

(** ** Claims about the transform *)

Section TransformClaims.

Context {lib : SSHLibrary}.

(** C2. A publickey request in signed form whose downstream signature
    verifies and whose key maps to a signer is forwarded rebuilt: user
    [mappedUser], method publickey, and a payload made of the has-signature
    byte 1, the algorithm name and the blob of the signer's public key, and
    the signature the signer made over the signed data built from the
    upstream session ID, the rebuilt request, and the signer's key
    algorithm and blob.  That signature is the one the payload carries, and
    it verifies with the signer's key over the signed data of the forwarded
    request and the upstream session ID (the signer's own signatures being
    valid for its key). *)
Theorem processAuthMsg_signed_is_resigned (piper : SSHPiperConfig) (mappedUser : string)
    (msg : userAuthRequestMsg) (p : pipedConn) mapKey downKey sig signer sign :
  let upKey := signerPublicKey signer in
  let upSession := sessionID (transport (upstream p)) in
  let signedData :=
    buildDataSignedForAuth upSession
      (mkUserAuthRequestMsg mappedUser serviceSSH "publickey" [])
      (bytesOf (Type' upKey)) (pubMarshal upKey) in
  MapPublicKey piper = Some mapKey ->
  parsePublicKeyMsg msg = Ret (downKey, false, Some sig) ->
  mapKey (downstream p) downKey = (Some signer, None) ->
  checkPublicKey msg downKey (Some sig) p = Ret true ->
  Sign signer (Rand (transport (upstream p))) signedData = Ret sign ->
  Verify upKey signedData sign = None ->
  fits32 (List.length
            (Marshal (mkPublickeyAuthMsg mappedUser serviceSSH "publickey" true
                        (Type' upKey) (pubMarshal upKey) (marshalString (Marshal sign))))) ->
  exists fwd,
    processAuthMsg piper mappedUser msg p = (Ret (Some fwd), p) /\
    User fwd = mappedUser /\ Service fwd = serviceSSH /\ Method fwd = "publickey" /\
    Payload fwd
    = marshalBool true ++ marshalStr (Type' upKey) ++ marshalString (pubMarshal upKey)
        ++ marshalString (Marshal sign) /\
    parseSignature (marshalString (Marshal sign)) = Some (sign, []) /\
    Verify upKey
      (buildDataSignedForAuth upSession fwd (bytesOf (Type' upKey)) (pubMarshal upKey))
      sign = None.
Proof.
  intros upKey upSession signedData Hmap Hparse Hkey Hcheck Hsign Hver Hfit.
  eexists. split.
  - rewrite (processAuthMsg_signed piper mappedUser msg p _ _ _ _ Hmap Hparse Hkey).
    rewrite Hcheck.
    rewrite (signAgain_rebuilds mappedUser msg signer downKey p sign Hsign Hfit).
    reflexivity.
  - cbn [User Service Method Payload]. repeat split.
    + replace (marshalString (Marshal sign)) with (marshalString (Marshal sign) ++ [])
        by apply app_nil_r.
      apply parseSignature_marshal. clear - Hfit. rewrite app_nil_r. fits_tac.
    + exact Hver.
Qed.

(** C3. A publickey request in query form whose key maps to a signer:
    when the upstream accepts the substituted key, the transform writes
    SSH_MSG_USERAUTH_PK_OK with the type and blob of the downstream key to
    the downstream transport and returns nil, and the turn of the relay
    loop leaves the upstream transport as the probe left it (nothing is
    forwarded); an error of that write is returned.  When the upstream
    rejects the key, the transform returns a none request. *)
Theorem processAuthMsg_query_acks_or_substitutes (piper : SSHPiperConfig)
    (mappedUser : string) (msg : userAuthRequestMsg) (p : pipedConn)
    mapKey downKey sig signer ok err upT :
  let p1 := mkPipedConn (setTransport (upstream p) upT) (downstream p) in
  let okPacket := Marshal (mkUserAuthPubKeyOkMsg (Type' downKey) (pubMarshal downKey)) in
  MapPublicKey piper = Some mapKey ->
  parsePublicKeyMsg msg = Ret (downKey, true, sig) ->
  mapKey (downstream p) downKey = (Some signer, None) ->
  validateKey (signerPublicKey signer) mappedUser (transport (upstream p)) = ((ok, err), upT) ->
  if ok then
    match writePacket okPacket (transport (downstream p)) with
    | (Ret _, dT) =>
        processAuthMsg piper mappedUser msg p
        = (Ret None, mkPipedConn (upstream p1) (setTransport (downstream p) dT)) /\
        outgoing dT = outgoing (transport (downstream p)) ++ [okPacket] /\
        upstream (snd (pipeAuthIteration (processAuthMsg piper mappedUser) msg p))
        = upstream p1
    | (Fail e, dT) =>
        processAuthMsg piper mappedUser msg p
        = (Fail e, mkPipedConn (upstream p1) (setTransport (downstream p) dT))
    | (Panic why, dT) =>
        processAuthMsg piper mappedUser msg p
        = (Panic why, mkPipedConn (upstream p1) (setTransport (downstream p) dT))
    end
  else
    exists fwd,
      processAuthMsg piper mappedUser msg p = (Ret (Some fwd), p1) /\
      fwd = noneAuthMsg mappedUser /\ Method fwd = "none".
Proof.
  intros p1 okPacket Hmap Hparse Hkey Hval.
  rewrite (processAuthMsg_query piper mappedUser msg p _ _ _ _ Hmap Hparse Hkey).
  unfold pipeAuthIteration, bind.
  rewrite (processAuthMsg_query piper mappedUser msg p _ _ _ _ Hmap Hparse Hkey).
  unfold validAndAck. rewrite Hval. subst p1.
  destruct ok.
  - unfold bind, onDownstream, onTransport. cbn [downstream upstream].
    fold okPacket.
    destruct (writePacket okPacket (transport (downstream p))) as [[[]|e|why] dT] eqn:Hw;
      try reflexivity.
    split; [reflexivity|]. split.
    + unfold writePacket in Hw.
      destruct (closed (transport (downstream p))); [discriminate|].
      destruct (writable (transport (downstream p))); [discriminate|].
      injection Hw as <-. reflexivity.
    + unfold ret. cbn [downstream upstream].
      destruct (nextAuthMsg (setTransport (downstream p) dT)) as [[next|e|why] d'];
        reflexivity.
  - eexists. repeat split.
Qed.

End TransformClaims.

(** ** Transports *)

Lemma writePacket_spec (pkt : bytes) (t t' : handshakeTransport) (r : outcome unit) :
  writePacket pkt t = (r, t') ->
  (r = Ret tt /\ outgoing t' = outgoing t ++ [pkt] /\ incoming t' = incoming t
   /\ sessionID t' = sessionID t)
  \/ (r = Fail errWrite /\ t' = t).
Proof.
  unfold writePacket. intros H.
  destruct (closed t); [right; now inversion H|].
  destruct (writable t); inversion H; subst; cbn; auto.
Qed.

Lemma readPacket_spec (t t' : handshakeTransport) (r : outcome bytes) :
  readPacket t = (r, t') ->
  (exists pkt, r = Ret pkt /\ incoming t = pkt :: incoming t' /\ outgoing t' = outgoing t
               /\ sessionID t' = sessionID t)
  \/ (r = Fail errEOF /\ t' = t).
Proof.
  unfold readPacket. intros H.
  destruct (closed t); [right; now inversion H|].
  destruct (incoming t) as [|pkt rest] eqn:Hin; inversion H; subst; cbn; eauto 6.
Qed.

Lemma nextAuthMsg_spec (d d' : connection) (r : outcome userAuthRequestMsg) :
  nextAuthMsg d = (r, d') ->
  outgoing (transport d') = outgoing (transport d) /\
  match r with
  | Ret _ => exists pkt, incoming (transport d) = pkt :: incoming (transport d')
  | Fail _ => List.length (incoming (transport d')) <= List.length (incoming (transport d))
  | Panic _ => False
  end.
Proof.
  unfold nextAuthMsg, bind, onTransport. intros H.
  destruct (readPacket (transport d)) as [rr t] eqn:Hr.
  destruct (readPacket_spec _ _ _ Hr) as [(pkt & -> & Hin & Hout & _) | [-> ->]].
  - cbn in H.
    destruct (Unmarshal_userAuthRequestMsg pkt emptyUserAuthRequestMsg) as [m [e|]].
    + inversion H; subst; cbn. split; [exact Hout|]. rewrite Hin. cbn. lia.
    + destruct (negb (String.eqb (Service m) serviceSSH));
        inversion H; subst; cbn; split; try exact Hout.
      * rewrite Hin. cbn. lia.
      * now exists pkt.
  - inversion H; subst; cbn. split; [now destruct d|]. destruct d; cbn; lia.
Qed.

(** ** The relay turn and what it writes to the upstream *)

Section TurnFacts.

Variable process : userAuthRequestMsg -> M pipedConn (option userAuthRequestMsg).

(** When the transform hands back a message, the turn appends at most
    that message, marshalled, to what the upstream transport was sent. *)
Lemma pipeAuthIteration_forwards_only (msg m : userAuthRequestMsg) (p p1 : pipedConn) :
  process msg p = (Ret (Some m), p1) ->
  let p' := snd (pipeAuthIteration process msg p) in
  outgoing (transport (upstream p')) = outgoing (transport (upstream p1))
  \/ outgoing (transport (upstream p'))
     = outgoing (transport (upstream p1)) ++ [Marshal m].
Proof.
  intros Hproc. unfold pipeAuthIteration, bind. rewrite Hproc.
  unfold onUpstream, onDownstream, onTransport, ret, panic.
  destruct (writePacket (Marshal m) (transport (upstream p1))) as [rw u1] eqn:Hw.
  cbn [upstream downstream transport setTransport fst snd].
  destruct (writePacket_spec _ _ _ _ Hw) as [(-> & Hout & _) | [-> ->]];
    [|left; reflexivity].
  destruct (readPacket u1) as [rr u2] eqn:Hr.
  destruct (readPacket_spec _ _ _ Hr) as [(pkt & -> & _ & Hout2 & _) | [-> ->]];
    [|right; exact Hout].
  assert (Hup : outgoing u2 = outgoing (transport (upstream p1)) ++ [Marshal m])
    by (now rewrite Hout2).
  destruct pkt as [|t reply]; [right; exact Hup|].
  cbn [upstream downstream transport setTransport fst snd].
  destruct (writePacket (t :: reply) (transport (downstream p1))) as [[[]|e|why] d1];
    cbn [upstream downstream transport setTransport fst snd];
    try (right; exact Hup).
  destruct (Byte.eqb t msgUserAuthSuccess); [right; exact Hup|].
  cbn [upstream downstream transport setTransport fst snd].
  destruct (nextAuthMsg _) as [[next|e|why] d2]; right; exact Hup.
Qed.

End TurnFacts.

(** ** Claims about the signed branch *)

Section SignedClaims.

Context {lib : SSHLibrary}.

(** C4, as amended. For a publickey request in signed form whose key the
    configured mapping maps to a signer, the downstream signature is
    checked over the signed data built from the downstream session ID, the
    request without its payload, and the type and blob of the downstream
    key.  When that verification fails the transform returns a none
    request with an empty payload, and the turn of the relay loop writes
    nothing to the upstream transport but, at most, that none request: the
    downstream signature is not written to it. *)
Theorem processAuthMsg_signed_checks_downstream_signature (piper : SSHPiperConfig)
    (mappedUser : string) (msg : userAuthRequestMsg) (p : pipedConn)
    mapKey downKey sig signer :
  let downSession := sessionID (transport (downstream p)) in
  let signedData :=
    buildDataSignedForAuth downSession
      (mkUserAuthRequestMsg (User msg) (Service msg) (Method msg) [])
      (bytesOf (Type' downKey)) (pubMarshal downKey) in
  MapPublicKey piper = Some mapKey ->
  parsePublicKeyMsg msg = Ret (downKey, false, Some sig) ->
  mapKey (downstream p) downKey = (Some signer, None) ->
  match Verify downKey signedData sig with
  | None => checkPublicKey msg downKey (Some sig) p = Ret (isAcceptableAlgo (Format sig))
  | Some _ =>
      checkPublicKey msg downKey (Some sig) p = Ret false /\
      exists fwd,
        processAuthMsg piper mappedUser msg p = (Ret (Some fwd), p) /\
        Method fwd = "none" /\ Payload fwd = [] /\
        let p' := snd (pipeAuthIteration (processAuthMsg piper mappedUser) msg p) in
        (outgoing (transport (upstream p')) = outgoing (transport (upstream p))
         \/ outgoing (transport (upstream p'))
            = outgoing (transport (upstream p)) ++ [Marshal fwd])
  end.
Proof.
  intros downSession signedData Hmap Hparse Hkey.
  assert (Hcheck : checkPublicKey msg downKey (Some sig) p
                   = if negb (isAcceptableAlgo (Format sig)) then Ret false
                     else match Verify downKey signedData sig with
                          | Some _ => Ret false
                          | None => Ret true
                          end) by reflexivity.
  destruct (Verify downKey signedData sig) as [e|] eqn:Hver.
  - assert (Hfalse : checkPublicKey msg downKey (Some sig) p = Ret false)
      by (rewrite Hcheck; now destruct (isAcceptableAlgo (Format sig))).
    split; [exact Hfalse|].
    assert (Hproc : processAuthMsg piper mappedUser msg p
                    = (Ret (Some (noneAuthMsg (User msg))), p)).
    { rewrite (processAuthMsg_signed piper mappedUser msg p _ _ _ _ Hmap Hparse Hkey).
      now rewrite Hfalse. }
    exists (noneAuthMsg (User msg)). repeat split; try exact Hproc.
    exact (pipeAuthIteration_forwards_only _ _ _ _ _ Hproc).
  - rewrite Hcheck. now destruct (isAcceptableAlgo (Format sig)).
Qed.

(** X22. The allow-list test of [checkPublicKey] is soft.  With a key
    mapping configured, a publickey request that [parsePublicKeyMsg]
    accepts in signed form and whose signature has a format that is not on
    the allow-list is answered like a failed verification: the transform
    returns a none request and no error, whatever the mapping returns. *)
Theorem processAuthMsg_unacceptable_signature_format_is_soft (piper : SSHPiperConfig)
    (mappedUser : string) (msg : userAuthRequestMsg) (p : pipedConn)
    mapKey downKey sig :
  MapPublicKey piper = Some mapKey ->
  parsePublicKeyMsg msg = Ret (downKey, false, Some sig) ->
  isAcceptableAlgo (Format sig) = false ->
  exists fwd,
    processAuthMsg piper mappedUser msg p = (Ret (Some fwd), p) /\
    fwd = noneAuthMsg (User msg) /\ Method fwd = "none".
Proof.
  intros Hmap Hparse Hformat.
  exists (noneAuthMsg (User msg)). repeat split.
  destruct (mapKey (downstream p) downKey) as [[signer|] [e|]] eqn:Hkey.
  - apply (processAuthMsg_unmapped piper mappedUser msg p _ _ _ _ _ _ Hmap Hparse Hkey).
    right; discriminate.
  - rewrite (processAuthMsg_signed piper mappedUser msg p _ _ _ _ Hmap Hparse Hkey).
    unfold checkPublicKey. now rewrite Hformat.
  - apply (processAuthMsg_unmapped piper mappedUser msg p _ _ _ _ _ _ Hmap Hparse Hkey).
    now left.
  - apply (processAuthMsg_unmapped piper mappedUser msg p _ _ _ _ _ _ Hmap Hparse Hkey).
    now left.
Qed.

End SignedClaims.

(** ** Concrete runs *)

Lemma processAuthMsg_signed_is_resigned_witness :
  exists fwd,
    processAuthMsg (lib := Toy.lib [] []) (Toy.config (Some Toy.mapToUp)) "bob"
      ToyRuns.signedRequest (Toy.pipe [] []) = (Ret (Some fwd), Toy.pipe [] []) /\
    User fwd = "bob" /\ Method fwd = "publickey".
Proof.
  destruct (processAuthMsg_signed_is_resigned (lib := Toy.lib [] [])
              (Toy.config (Some Toy.mapToUp)) "bob" ToyRuns.signedRequest (Toy.pipe [] [])
              Toy.mapToUp Toy.downKey (Toy.downSignature (Toy.pipe [] [])) Toy.upSigner
              (mkSignature "ssh-ed25519"
                 ([x21; x22; x23]
                    ++ buildDataSignedForAuth [x0e]
                         (mkUserAuthRequestMsg "bob" serviceSSH "publickey" [])
                         (bytesOf "ssh-ed25519") (pubMarshal (Toy.key "ssh-ed25519" [x21; x22; x23]))))
              ltac:(reflexivity) ltac:(vm_compute; reflexivity) ltac:(reflexivity)
              ltac:(vm_compute; reflexivity) ltac:(vm_compute; reflexivity)
              ltac:(vm_compute; reflexivity) ltac:(vm_compute; reflexivity))
    as (fwd & Hfwd & Huser & _ & Hmethod & _).
  exists fwd. repeat split; assumption.
Defined.

Lemma processAuthMsg_query_acks_or_substitutes_witness :
  fst (processAuthMsg (lib := Toy.lib [] [[x3c]]) (Toy.config (Some Toy.mapToUp)) "bob"
         ToyRuns.queryRequest (Toy.pipe [] [[x3c]])) = Ret None
  /\ exists fwd,
       fst (processAuthMsg (lib := Toy.lib [] [[x33]]) (Toy.config (Some Toy.mapToUp)) "bob"
              ToyRuns.queryRequest (Toy.pipe [] [[x33]])) = Ret (Some fwd)
       /\ Method fwd = "none".
Proof.
  split.
  - pose proof (processAuthMsg_query_acks_or_substitutes (lib := Toy.lib [] [[x3c]])
                  (Toy.config (Some Toy.mapToUp)) "bob" ToyRuns.queryRequest
                  (Toy.pipe [] [[x3c]]) Toy.mapToUp Toy.downKey None Toy.upSigner
                  true None
                  (snd (Toy.probe (signerPublicKey Toy.upSigner) "bob"
                          (Toy.peer [x0e] [[x3c]])))
                  ltac:(reflexivity) ltac:(vm_compute; reflexivity) ltac:(reflexivity)
                  ltac:(vm_compute; reflexivity)) as H.
    cbv beta iota zeta in H.
    change (writePacket
              (Marshal (mkUserAuthPubKeyOkMsg (Type' Toy.downKey) (pubMarshal Toy.downKey)))
              (transport (downstream (Toy.pipe [] [[x3c]]))))
      with (Ret tt,
            mkTransport [x0d] [] []
              [Marshal (mkUserAuthPubKeyOkMsg (Type' Toy.downKey) (pubMarshal Toy.downKey))]
              15 false) in H.
    cbv beta iota in H. destruct H as [H _]. now rewrite H.
  - destruct (processAuthMsg_query_acks_or_substitutes (lib := Toy.lib [] [[x33]])
                (Toy.config (Some Toy.mapToUp)) "bob" ToyRuns.queryRequest
                (Toy.pipe [] [[x33]]) Toy.mapToUp Toy.downKey None Toy.upSigner
                false None
                (snd (Toy.probe (signerPublicKey Toy.upSigner) "bob"
                        (Toy.peer [x0e] [[x33]])))
                ltac:(reflexivity) ltac:(vm_compute; reflexivity) ltac:(reflexivity)
                ltac:(vm_compute; reflexivity)) as (fwd & Hfwd & _ & Hmethod).
    exists fwd. split; [now rewrite Hfwd | exact Hmethod].
Defined.

Lemma processAuthMsg_signed_checks_downstream_signature_witness :
  exists fwd,
    processAuthMsg (lib := Toy.lib [] []) (Toy.config (Some Toy.mapToUp)) "bob"
      ToyRuns.forgedRequest (Toy.pipe [] []) = (Ret (Some fwd), Toy.pipe [] []) /\
    Method fwd = "none" /\ Payload fwd = [].
Proof.
  pose proof (processAuthMsg_signed_checks_downstream_signature (lib := Toy.lib [] [])
                (Toy.config (Some Toy.mapToUp)) "bob" ToyRuns.forgedRequest (Toy.pipe [] [])
                Toy.mapToUp Toy.downKey (mkSignature "ssh-rsa" [x00]) Toy.upSigner
                ltac:(reflexivity) ltac:(vm_compute; reflexivity) ltac:(reflexivity)) as H.
  cbv beta iota zeta in H.
  change (Verify Toy.downKey
            (buildDataSignedForAuth (sessionID (transport (downstream (Toy.pipe [] []))))
               (mkUserAuthRequestMsg (User ToyRuns.forgedRequest)
                  (Service ToyRuns.forgedRequest) (Method ToyRuns.forgedRequest) [])
               (bytesOf (Type' Toy.downKey)) (pubMarshal Toy.downKey))
            (mkSignature "ssh-rsa" [x00]))
    with (Some (errorString "ssh: signature did not verify")) in H.
  cbv beta iota in H.
  destruct H as (_ & fwd & Hfwd & Hmethod & Hpayload & _).
  exists fwd. repeat split; assumption.
Defined.

Lemma processAuthMsg_unacceptable_signature_format_is_soft_witness :
  exists fwd,
    processAuthMsg (lib := Toy.lib [] []) (Toy.config (Some Toy.mapToUp)) "bob"
      ToyRuns.bogusFormatRequest (Toy.pipe [] []) = (Ret (Some fwd), Toy.pipe [] []) /\
    fwd = noneAuthMsg (User ToyRuns.bogusFormatRequest) /\ Method fwd = "none".
Proof.
  apply (processAuthMsg_unacceptable_signature_format_is_soft (lib := Toy.lib [] [])
           (Toy.config (Some Toy.mapToUp)) "bob" ToyRuns.bogusFormatRequest (Toy.pipe [] [])
           Toy.mapToUp Toy.downKey ToyRuns.bogusSignature);
    vm_compute; reflexivity.
Defined.

(** C5 fails on the code.  The request [bogusRequest] is a signed
    publickey request whose algorithm name and whose signature format are
    both the name bogus, which is not on the allow-list.  The claim promises
    a none request forwarded to the upstream and no fatal error.  The test
    of the algorithm name in [parsePublicKeyMsg] returns an error instead;
    the transform returns that error, no none request is substituted, and
    [pipeAuth] returns it having written only the service request to the
    upstream: the session is aborted.  The sibling test in
    [checkPublicKey], reached by the same signature under the listed
    algorithm name ssh-rsa, is the soft rejection the claim describes. *)
Theorem unacceptable_algorithm_aborts_the_relay :
  Payload ToyRuns.bogusRequest
  = x01 :: marshalStr "bogus" ++ marshalString (pubMarshal Toy.downKey)
      ++ marshalString (Marshal ToyRuns.bogusSignature)
  /\ isAcceptableAlgo (SSHLibrary := Toy.lib [] []) "bogus" = false
  /\ isAcceptableAlgo (SSHLibrary := Toy.lib [] []) (Format ToyRuns.bogusSignature) = false
  /\ parsePublicKeyMsg (lib := Toy.lib [] []) ToyRuns.bogusRequest
     = Fail (errAlgoNotAccepted "bogus")
  /\ processAuthMsg (lib := Toy.lib [] []) (Toy.config (Some Toy.mapToUp)) "bob"
       ToyRuns.bogusRequest (Toy.pipe [] [])
     = (Fail (errAlgoNotAccepted "bogus"), Toy.pipe [] [])
  /\ fst (pipeAuth (processAuthMsg (lib := Toy.lib [] []) (Toy.config (Some Toy.mapToUp)) "bob")
            ToyRuns.bogusRequest
            (Toy.pipe [] [Marshal (mkServiceAcceptMsg serviceUserAuth)]))
     = Fail (errAlgoNotAccepted "bogus")
  /\ outgoing (transport (upstream (snd
       (pipeAuth (processAuthMsg (lib := Toy.lib [] []) (Toy.config (Some Toy.mapToUp)) "bob")
          ToyRuns.bogusRequest
          (Toy.pipe [] [Marshal (mkServiceAcceptMsg serviceUserAuth)])))))
     = [Marshal (mkServiceRequestMsg serviceUserAuth)]
  /\ checkPublicKey (lib := Toy.lib [] []) ToyRuns.bogusFormatRequest Toy.downKey
       (Some ToyRuns.bogusSignature) (Toy.pipe [] [])
     = Ret false
  /\ processAuthMsg (lib := Toy.lib [] []) (Toy.config (Some Toy.mapToUp)) "bob"
       ToyRuns.bogusFormatRequest (Toy.pipe [] [])
     = (Ret (Some (mkUserAuthRequestMsg "alice" serviceSSH "none" [])), Toy.pipe [] []).
Proof. repeat split; vm_compute; reflexivity. Qed.

(** C1 fails on the code.  With upstream user bob and a downstream
    request of user alice: when the key is mapped to no signer, and when
    the signature does not verify, the transform returns a none request
    for alice, and the relay writes that request, user alice, to the
    upstream transport.  (When the upstream rejects the probed key the
    none request is for bob.) *)
Theorem processAuthMsg_none_substitute_keeps_downstream_user :
  processAuthMsg (lib := Toy.lib [] []) (Toy.config (Some Toy.mapNothing)) "bob"
    ToyRuns.queryRequest (Toy.pipe [] [])
  = (Ret (Some (mkUserAuthRequestMsg "alice" serviceSSH "none" [])), Toy.pipe [] [])
  /\ processAuthMsg (lib := Toy.lib [] []) (Toy.config (Some Toy.mapToUp)) "bob"
       ToyRuns.forgedRequest (Toy.pipe [] [])
     = (Ret (Some (mkUserAuthRequestMsg "alice" serviceSSH "none" [])), Toy.pipe [] [])
  /\ outgoing (transport (upstream (snd
       (pipeAuthIteration
          (processAuthMsg (lib := Toy.lib [] []) (Toy.config (Some Toy.mapNothing)) "bob")
          ToyRuns.queryRequest (Toy.pipe [] [])))))
     = [Marshal (mkUserAuthRequestMsg "alice" serviceSSH "none" [])]
  /\ fst (processAuthMsg (lib := Toy.lib [] [[x33]]) (Toy.config (Some Toy.mapToUp)) "bob"
            ToyRuns.queryRequest (Toy.pipe [] [[x33]]))
     = Ret (Some (mkUserAuthRequestMsg "bob" serviceSSH "none" [])).
Proof. repeat split; vm_compute; reflexivity. Qed.

(** C6 fails on the code.  A query-form payload followed by two stray
    bytes parses without error, as a query for the key; the same two bytes
    after a signed-form payload are a parse error. *)
Theorem parsePublicKeyMsg_query_accepts_trailing_bytes :
  Payload ToyRuns.queryWithTrailing
  = (x00 :: marshalStr "ssh-rsa" ++ marshalString (pubMarshal Toy.downKey)) ++ [xff; xfe]
  /\ parsePublicKeyMsg (lib := Toy.lib [] []) ToyRuns.queryWithTrailing
     = Ret (Toy.downKey, true, None)
  /\ parsePublicKeyMsg (lib := Toy.lib [] []) ToyRuns.signedWithTrailing
     = Fail (parseError msgUserAuthRequest).
Proof. repeat split; vm_compute; reflexivity. Qed.

(** ** The relay loop *)

Section LoopFacts.

Variable process : userAuthRequestMsg -> M pipedConn (option userAuthRequestMsg).

(** A turn in which the transform hands back [m] and the three
    transport calls succeed. *)
Lemma pipeAuthIteration_forward (msg m : userAuthRequestMsg) (p p1 : pipedConn)
    (u1 u2 d1 : handshakeTransport) (t : byte) (reply : bytes) :
  process msg p = (Ret (Some m), p1) ->
  writePacket (Marshal m) (transport (upstream p1)) = (Ret tt, u1) ->
  readPacket u1 = (Ret (t :: reply), u2) ->
  writePacket (t :: reply) (transport (downstream p1)) = (Ret tt, d1) ->
  let p2 := mkPipedConn (setTransport (upstream p1) u2) (setTransport (downstream p1) d1) in
  pipeAuthIteration process msg p
  = if Byte.eqb t msgUserAuthSuccess then (Ret (inl tt), p2)
    else (next <- onDownstream nextAuthMsg ;; ret (inr next))%go p2.
Proof.
  intros Hproc Hw Hr Hd p2. unfold pipeAuthIteration, bind. rewrite Hproc.
  unfold onUpstream, onTransport, ret.
  rewrite Hw. cbn [upstream downstream transport setTransport].
  rewrite Hr. cbn [upstream downstream transport setTransport].
  unfold onDownstream at 1. cbn [upstream downstream transport setTransport].
  rewrite Hd. cbn [upstream downstream transport setTransport].
  subst p2. unfold setTransport. cbn [user].
  now destruct (Byte.eqb t msgUserAuthSuccess).
Qed.

(** A turn returns nil only after writing an upstream reply of type
    SSH_MSG_USERAUTH_SUCCESS to the downstream transport. *)
Lemma pipeAuthIteration_success (msg : userAuthRequestMsg) (p p' : pipedConn) :
  pipeAuthIteration process msg p = (Ret (inl tt), p') ->
  exists pre reply,
    outgoing (transport (downstream p')) = pre ++ [msgUserAuthSuccess :: reply].
Proof.
  unfold pipeAuthIteration, bind.
  destruct (process msg p) as [[[m|]|e|why] p1]; try discriminate.
  - unfold onUpstream, onDownstream, onTransport, ret, panic.
    destruct (writePacket (Marshal m) (transport (upstream p1))) as [[[]|e|why] u1];
      cbn [upstream downstream transport setTransport]; try discriminate.
    destruct (readPacket u1) as [[[|t reply]|e|why] u2];
      cbn [upstream downstream transport setTransport]; try discriminate.
    destruct (writePacket (t :: reply) (transport (downstream p1))) as [[[]|e|why] d1] eqn:Hd;
      cbn [upstream downstream transport setTransport]; try discriminate.
    destruct (Byte.eqb t msgUserAuthSuccess) eqn:Ht.
    + intros H. inversion H; subst. cbn [upstream downstream transport setTransport].
      apply Byte.byte_dec_bl in Ht. subst t.
      destruct (writePacket_spec _ _ _ _ Hd) as [(_ & Hout & _) | [Habs _]];
        [|discriminate].
      now exists (outgoing (transport (downstream p1))), reply.
    + destruct (nextAuthMsg _) as [[next|e|why] d2]; discriminate.
  - unfold ret, onDownstream.
    destruct (nextAuthMsg (downstream p1)) as [[next|e|why] d2]; discriminate.
Qed.

Lemma pipeAuthLoop_success (turns : nat) :
  forall (msg : userAuthRequestMsg) (p p' : pipedConn),
    pipeAuthLoop turns process msg p = Some (Ret tt, p') ->
    exists pre reply,
      outgoing (transport (downstream p')) = pre ++ [msgUserAuthSuccess :: reply].
Proof.
  induction turns as [|turns IH]; intros msg p p'; cbn [pipeAuthLoop]; [discriminate|].
  destruct (pipeAuthIteration process msg p) as [[[[]|next]|e|why] p1] eqn:Hit;
    try discriminate.
  - intros H. inversion H; subst. exact (pipeAuthIteration_success _ _ _ Hit).
  - apply IH.
Qed.

(** C7. In a turn of the relay loop whose transformed message [m] is not
    nil (the transport calls succeeding): exactly [Marshal m] is appended
    to what the upstream was sent, exactly one packet is taken from the
    upstream, that packet is appended unchanged to what the downstream was
    sent while the packets still to be read from the downstream are
    untouched, and the turn returns nil exactly when the first byte of the
    packet is SSH_MSG_USERAUTH_SUCCESS; otherwise the next downstream
    request is read from the state reached after that write, and the loop
    goes on with it.  Whenever the loop returns nil, the last packet sent
    to the downstream is of type SSH_MSG_USERAUTH_SUCCESS. *)
Theorem pipeAuth_turn_is_sequential (msg m : userAuthRequestMsg) (p p1 : pipedConn)
    (u1 u2 d1 : handshakeTransport) (t : byte) (reply : bytes) :
  process msg p = (Ret (Some m), p1) ->
  writePacket (Marshal m) (transport (upstream p1)) = (Ret tt, u1) ->
  readPacket u1 = (Ret (t :: reply), u2) ->
  writePacket (t :: reply) (transport (downstream p1)) = (Ret tt, d1) ->
  let p2 := mkPipedConn (setTransport (upstream p1) u2) (setTransport (downstream p1) d1) in
  outgoing (transport (upstream p2)) = outgoing (transport (upstream p1)) ++ [Marshal m]
  /\ incoming (transport (upstream p1)) = (t :: reply) :: incoming (transport (upstream p2))
  /\ outgoing (transport (downstream p2))
     = outgoing (transport (downstream p1)) ++ [t :: reply]
  /\ downstreamIncoming p2 = downstreamIncoming p1
  /\ pipeAuthIteration process msg p
     = (if Byte.eqb t msgUserAuthSuccess then (Ret (inl tt), p2)
        else (next <- onDownstream nextAuthMsg ;; ret (inr next))%go p2)
  /\ (forall turns,
        pipeAuthLoop (S turns) process msg p
        = if Byte.eqb t msgUserAuthSuccess then Some (Ret tt, p2)
          else match onDownstream nextAuthMsg p2 with
               | (Ret next, p3) => pipeAuthLoop turns process next p3
               | (Fail e, p3) => Some (Fail e, p3)
               | (Panic why, p3) => Some (Panic why, p3)
               end)
  /\ (forall turns msg0 p0 p',
        pipeAuthLoop turns process msg0 p0 = Some (Ret tt, p') ->
        exists pre reply',
          outgoing (transport (downstream p')) = pre ++ [msgUserAuthSuccess :: reply']).
Proof.
  intros Hproc Hw Hr Hd p2.
  destruct (writePacket_spec _ _ _ _ Hw) as [(_ & Hwo & Hwi & _) | [Habs _]]; [|discriminate].
  destruct (readPacket_spec _ _ _ Hr) as [(pkt & Hpkt & Hri & Hro & _) | [Habs _]];
    [|discriminate].
  injection Hpkt as <-.
  destruct (writePacket_spec _ _ _ _ Hd) as [(_ & Hdo & Hdi & _) | [Habs _]]; [|discriminate].
  pose proof (pipeAuthIteration_forward msg m p p1 u1 u2 d1 t reply Hproc Hw Hr Hd) as Hit.
  cbv zeta in Hit. fold p2 in Hit.
  subst p2. unfold downstreamIncoming. cbn [upstream downstream transport setTransport].
  repeat split.
  - now rewrite Hro.
  - now rewrite <- Hwi.
  - exact Hdo.
  - exact Hdi.
  - exact Hit.
  - intros turns. cbn [pipeAuthLoop]. rewrite Hit.
    destruct (Byte.eqb t msgUserAuthSuccess); [reflexivity|].
    unfold bind, ret.
    now destruct (onDownstream nextAuthMsg _) as [[next|e|why] p3].
  - intros turns msg0 p0 p'. apply pipeAuthLoop_success.
Qed.

End LoopFacts.

(** ** The loop ends within its bound *)

Section Termination.

Context {lib : SSHLibrary}.

(** The transform reads nothing from the downstream transport. *)
Lemma processAuthMsg_downstreamIncoming (piper : SSHPiperConfig) (mappedUser : string)
    (msg : userAuthRequestMsg) (p p' : pipedConn) r :
  processAuthMsg piper mappedUser msg p = (r, p') ->
  downstreamIncoming p' = downstreamIncoming p.
Proof.
  unfold processAuthMsg.
  destruct (negb (String.eqb (Method msg) "publickey")); [now inversion 1|].
  destruct (MapPublicKey piper) as [mapKey|]; [|now inversion 1].
  destruct (parsePublicKeyMsg msg) as [[[downKey isQuery] sig]|e|why]; try now inversion 1.
  destruct (mapKey (downstream p) downKey) as [[signer|] [e|]]; try now inversion 1.
  destruct isQuery.
  - unfold validAndAck.
    destruct (validateKey _ _ _) as [[ok err] upT].
    destruct ok; [|now inversion 1].
    unfold bind, onDownstream, onTransport, ret.
    cbn [upstream downstream transport setTransport].
    destruct (writePacket _ (transport (downstream p))) as [rw dT] eqn:Hw.
    destruct (writePacket_spec _ _ _ _ Hw) as [(-> & _ & Hin & _) | [-> ->]];
      inversion 1; subst; unfold downstreamIncoming;
      cbn [upstream downstream transport setTransport]; congruence.
  - destruct (checkPublicKey msg downKey sig p) as [[|]|e|why]; try now inversion 1.
    destruct (signAgain _ _ _ _ _); now inversion 1.
Qed.

End Termination.

Section LoopBound.

Variable process : userAuthRequestMsg -> M pipedConn (option userAuthRequestMsg).

Hypothesis process_reads_nothing :
  forall msg p r p', process msg p = (r, p') ->
                     downstreamIncoming p' = downstreamIncoming p.

(** A turn that goes round again has read one downstream packet. *)
Lemma pipeAuthIteration_next (msg next : userAuthRequestMsg) (p p' : pipedConn) :
  pipeAuthIteration process msg p = (Ret (inr next), p') ->
  List.length (downstreamIncoming p) = S (List.length (downstreamIncoming p')).
Proof.
  unfold pipeAuthIteration, bind.
  destruct (process msg p) as [[[m|]|e|why] p1] eqn:Hproc; try discriminate;
    rewrite <- (process_reads_nothing _ _ _ _ Hproc).
  - unfold onUpstream, onDownstream, onTransport, ret, panic.
    destruct (writePacket (Marshal m) (transport (upstream p1))) as [[[]|e|why] u1];
      cbn [upstream downstream transport setTransport]; try discriminate.
    destruct (readPacket u1) as [[[|t reply]|e|why] u2];
      cbn [upstream downstream transport setTransport]; try discriminate.
    destruct (writePacket (t :: reply) (transport (downstream p1))) as [[[]|e|why] d1] eqn:Hd;
      cbn [upstream downstream transport setTransport]; try discriminate.
    destruct (writePacket_spec _ _ _ _ Hd) as [(_ & _ & Hin & _) | [Habs _]]; [|discriminate].
    destruct (Byte.eqb t msgUserAuthSuccess); [discriminate|].
    cbn [upstream downstream transport setTransport].
    destruct (nextAuthMsg _) as [[nx|e|why] d2] eqn:Hn; try discriminate.
    intros H. inversion H; subst.
    destruct (nextAuthMsg_spec _ _ _ Hn) as [_ [pkt Hpkt]].
    unfold downstreamIncoming. cbn [upstream downstream transport setTransport] in *.
    rewrite <- Hin, Hpkt. reflexivity.
  - unfold ret, onDownstream.
    destruct (nextAuthMsg (downstream p1)) as [[nx|e|why] d2] eqn:Hn; try discriminate.
    intros H. inversion H; subst.
    destruct (nextAuthMsg_spec _ _ _ Hn) as [_ [pkt Hpkt]].
    unfold downstreamIncoming. cbn [downstream]. rewrite Hpkt. reflexivity.
Qed.

Lemma pipeAuthLoop_within_bound (turns : nat) :
  forall (msg : userAuthRequestMsg) (p : pipedConn),
    List.length (downstreamIncoming p) < turns ->
    exists r, pipeAuthLoop turns process msg p = Some r.
Proof.
  induction turns as [|turns IH]; intros msg p Hlen; [lia|].
  cbn [pipeAuthLoop].
  destruct (pipeAuthIteration process msg p) as [[[[]|next]|e|why] p1] eqn:Hit; eauto.
  apply IH. pose proof (pipeAuthIteration_next _ _ _ _ Hit). lia.
Qed.

(** [pipeAuth] is the service request followed by the loop: the bound on
    the turns is never reached. *)
Lemma pipeAuth_runs_the_loop (init : userAuthRequestMsg) (p p1 : pipedConn) :
  onUpstream (onTransport sendAuthReq) p = (Ret tt, p1) ->
  exists r,
    pipeAuthLoop (pipeAuthTurns p1) process init p1 = Some r /\
    pipeAuth process init p = r.
Proof.
  intros Hsend.
  destruct (pipeAuthLoop_within_bound (pipeAuthTurns p1) init p1) as [r Hr].
  - unfold pipeAuthTurns, downstreamIncoming. lia.
  - exists r. split; [exact Hr|]. unfold pipeAuth. now rewrite Hsend, Hr.
Qed.

End LoopBound.

Lemma pipeAuth_turn_is_sequential_witness :
  pipeAuthIteration (processAuthMsg (lib := Toy.lib [] []) (Toy.config None) "bob")
    (Toy.request "password" [x00]) (Toy.pipe [] [[x34]])
  = (Ret (inl tt),
     mkPipedConn
       (mkConnection EmptyString
          (mkTransport [x0e] [] []
             [Marshal (mkUserAuthRequestMsg "bob" serviceSSH "password" [x00])] 15 false))
       (mkConnection "alice" (mkTransport [x0d] [] [] [[x34]] 15 false))).
Proof.
  apply (pipeAuth_turn_is_sequential
           (processAuthMsg (lib := Toy.lib [] []) (Toy.config None) "bob")
           (Toy.request "password" [x00])
           (mkUserAuthRequestMsg "bob" serviceSSH "password" [x00])
           (Toy.pipe [] [[x34]]) (Toy.pipe [] [[x34]])
           (mkTransport [x0e] [] [[x34]]
              [Marshal (mkUserAuthRequestMsg "bob" serviceSSH "password" [x00])] 15 false)
           (mkTransport [x0e] [] []
              [Marshal (mkUserAuthRequestMsg "bob" serviceSSH "password" [x00])] 15 false)
           (mkTransport [x0d] [] [] [[x34]] 15 false)
           x34 []
           ltac:(reflexivity) ltac:(reflexivity) ltac:(reflexivity) ltac:(reflexivity)).
Defined.

(** ** Setting up a piped connection *)

Lemma quiet_no_FindUpstream (evs : list event) :
  quiet evs -> filter isFindUpstream evs = [].
Proof.
  induction evs as [|e evs IH]; intros Hq; [reflexivity|].
  cbn [filter]. pose proof (Hq e (or_introl eq_refl)) as He.
  destruct e; try discriminate He; cbn [isFindUpstream]; apply IH;
    intros e' He'; apply Hq; now right.
Qed.

Lemma quiet_not_in (evs : list event) (e : event) :
  quiet evs -> isSocketEvent e = false -> ~ In e evs.
Proof. intros Hq He Hin. rewrite (Hq e Hin) in He. discriminate. Qed.

(** Splitting a list at a call of [FindUpstream] when the part before
    the known position holds none. *)
Lemma split_at_FindUpstream (a b a' b' : list event) (x y : event) :
  filter isFindUpstream a = [] -> isFindUpstream y = true ->
  a ++ x :: b = a' ++ y :: b' ->
  a' = a \/ exists c, a' = a ++ x :: c.
Proof.
  revert a'. induction a as [|h a IH]; intros a' Ha Hy Heq.
  - destruct a' as [|h' a']; [now left|].
    right. cbn in Heq. injection Heq as <- Hrest. now exists a'.
  - cbn [filter] in Ha. destruct (isFindUpstream h) eqn:Hh; [discriminate|].
    destruct a' as [|h' a'].
    + cbn in Heq. injection Heq as -> Hrest. congruence.
    + cbn in Heq. injection Heq as <- Hrest.
      destruct (IH a' Ha Hy Hrest) as [-> | [c ->]]; [now left|].
      right. now exists c.
Qed.

Section PiperFacts.

Context {lib : SSHLibrary}.

Lemma newDownstream_quiet (c : netConn) (keys : list Signer) :
  quiet (snd (newDownstream c keys)).
Proof.
  unfold newDownstream.
  destruct (serverHandshakeNoAuth c keys); cbn [snd]; intros x Hx;
    repeat (destruct Hx as [<- | Hx]; [reflexivity|]); destruct Hx.
Qed.

Lemma newUpstream_quiet (c : netConn) (addr : string) :
  quiet (snd (newUpstream c addr)).
Proof.
  unfold newUpstream.
  destruct (clientHandshakeNoAuth c addr); cbn [snd]; intros x Hx;
    repeat (destruct Hx as [<- | Hx]; [reflexivity|]); destruct Hx.
Qed.

Lemma quiet_app (a b : list event) : quiet a -> quiet b -> quiet (a ++ b).
Proof.
  intros Ha Hb e He. apply in_app_or in He. destruct He; auto.
Qed.

(** From the call of [FindUpstream] on, that call is the first event and
    the only call of a callback. *)
Lemma connectUpstream_events (piper : SSHPiperConfig)
    (findUpstream : connection -> option netConn * string * option error)
    (userAuthReq : userAuthRequestMsg) (d : connection) :
  exists err sock,
    events (snd (connectUpstream piper findUpstream userAuthReq d))
    = EvFindUpstream err :: sock /\ quiet sock.
Proof.
  unfold connectUpstream.
  destruct (findUpstream d) as [[upconn mappedUser] err].
  exists err.
  destruct err as [e|]; [exists []; split; [reflexivity | intros ? []]|].
  destruct upconn as [upconn|]; [|exists []; split; [reflexivity | intros ? []]].
  pose proof (newUpstream_quiet upconn (RemoteAddr upconn)) as Hq.
  destruct (newUpstream upconn (RemoteAddr upconn)) as [[u|e|why] ev'];
    cbn [snd] in Hq; try (exists ev'; split; [reflexivity | exact Hq]).
  destruct (pipeAuth _ userAuthReq _) as [[[]|e|why] p];
    exists ev'; split; try reflexivity; exact Hq.
Qed.

(** The challenge block calls the callback at most once, and lets the
    run go on only when the callback returned true and no error. *)
Lemma additionalChallenge_events (piper : SSHPiperConfig) (d d' : connection)
    (r : outcome unit) (ev : list event) :
  additionalChallenge piper d = ((r, d'), ev) ->
  (AdditionalChallenge piper = None /\ ev = [] /\ r = Ret tt)
  \/ (ev = [] /\ r <> Ret tt)
  \/ (ev = [EvAdditionalChallenge true None] /\ r = Ret tt)
  \/ (exists ok err, ev = [EvAdditionalChallenge ok err]
                     /\ (ok = false \/ err <> None) /\ r <> Ret tt).
Proof.
  unfold additionalChallenge.
  destruct (AdditionalChallenge piper) as [challenge|];
    [|inversion 1; now left].
  destruct (challengeLoop _ d) as [[[[]|e|why] d1]|];
    try (inversion 1; right; left; split; [reflexivity | discriminate]).
  destruct (challenge d1) as [[ok err] d2].
  destruct err as [e|].
  - inversion 1. right; right; right. exists ok, (Some e).
    repeat split; [right|]; discriminate.
  - destruct ok; cbn [negb]; inversion 1.
    + right; right; left. now split.
    + right; right; right. exists false, None. repeat split; [now left | discriminate].
Qed.

End PiperFacts.

Section PiperClaims.

Context {lib : SSHLibrary}.

(** The events of a run: socket events, then at most one call of the
    challenge, then at most one call of [FindUpstream] followed by socket
    events; [FindUpstream] follows a challenge only if it was passed. *)
Lemma NewSSHPiperConn_events (conn : netConn) (piper : SSHPiperConfig) :
  exists hs ch tail,
    events (snd (NewSSHPiperConn conn piper)) = hs ++ ch ++ tail /\ quiet hs /\
    ((ch = [] /\ tail = [])
     \/ (AdditionalChallenge piper = None /\ ch = []
         /\ exists e sock, tail = EvFindUpstream e :: sock /\ quiet sock)
     \/ (exists ok err, ch = [EvAdditionalChallenge ok err]
                        /\ (ok = false \/ err <> None) /\ tail = [])
     \/ (ch = [EvAdditionalChallenge true None]
         /\ exists e sock, tail = EvFindUpstream e :: sock /\ quiet sock)).
Proof.
  unfold NewSSHPiperConn.
  destruct (FindUpstream piper) as [findUpstream|];
    [|exists [], [], []; repeat split; [intros ? [] | now left]].
  pose proof (newDownstream_quiet conn (hostKeys piper)) as Hq.
  destruct (newDownstream conn (hostKeys piper)) as [[d|e|why] ev]; cbn [snd] in Hq;
    try (exists ev, [], []; cbn [snd events]; rewrite app_nil_r;
         repeat split; [exact Hq | now left]).
  destruct (nextAuthMsg d) as [[userAuthReq|e|why] d1];
    try (exists ev, [], []; cbn [snd events]; rewrite app_nil_r;
         repeat split; [exact Hq | now left]).
  destruct (additionalChallenge piper _) as [[r d2] ev'] eqn:Hc.
  destruct (connectUpstream_events piper findUpstream userAuthReq d2)
    as (err & sock & Hev & Hsock).
  destruct (additionalChallenge_events _ _ _ _ _ Hc)
    as [(Hnone & -> & ->) | [(-> & Hr) | [(-> & ->) | (ok & e & -> & Hbad & Hr)]]].
  - exists ev, [], (EvFindUpstream err :: sock).
    unfold prependEvents. cbn [snd events]. rewrite Hev, app_nil_r.
    repeat split; [exact Hq|]. right; left. eauto 6.
  - exists ev, [], []. rewrite app_nil_r.
    destruct r as [[]|e|why]; [now elim Hr| |]; cbn [snd events]; rewrite app_nil_r;
      repeat split; try exact Hq; now left.
  - exists ev, [EvAdditionalChallenge true None], (EvFindUpstream err :: sock).
    unfold prependEvents. cbn [snd events]. rewrite Hev, <- app_assoc.
    repeat split; [exact Hq|]. right; right; right. eauto 6.
  - exists ev, [EvAdditionalChallenge ok e], [].
    destruct r as [[]|e'|why]; [now elim Hr| |]; cbn [snd events]; rewrite app_nil_r;
      repeat split; try exact Hq; right; right; left; eauto 6.
Qed.

(** C8. In a run of [NewSSHPiperConn], [FindUpstream] is called at most
    once; when an additional challenge is configured, a call of
    [FindUpstream] comes after a call of the challenge that returned true
    and no error; and when a call of the challenge returned false or an
    error, [FindUpstream] is not called at all. *)
Theorem FindUpstream_once_and_after_the_challenge (conn : netConn) (piper : SSHPiperConfig) :
  let evs := events (snd (NewSSHPiperConn conn piper)) in
  List.length (filter isFindUpstream evs) <= 1
  /\ (forall before err after,
        evs = before ++ EvFindUpstream err :: after ->
        AdditionalChallenge piper = None \/ In (EvAdditionalChallenge true None) before)
  /\ (forall ok err,
        In (EvAdditionalChallenge ok err) evs ->
        ok = false \/ err <> None ->
        filter isFindUpstream evs = []).
Proof.
  intros evs. subst evs.
  destruct (NewSSHPiperConn_events conn piper) as (hs & ch & tail & -> & Hq & Hshape).
  pose proof (quiet_no_FindUpstream hs Hq) as Hhs.
  destruct Hshape as [(-> & ->) | [(Hnone & -> & e & sock & -> & Hsock)
                     | [(ok & e & -> & Hbad & ->) | (-> & e & sock & -> & Hsock)]]].
  - cbn [app]. rewrite app_nil_r, Hhs. split; [cbn; lia | split].
    + intros before err after Heq.
      assert (Hin : In (EvFindUpstream err) hs)
        by (rewrite Heq; apply in_or_app; right; now left).
      now apply (quiet_not_in hs _ Hq) in Hin.
    + reflexivity.
  - cbn [app]. rewrite filter_app, Hhs. cbn [filter isFindUpstream app].
    rewrite (quiet_no_FindUpstream sock Hsock). split; [cbn; lia | split].
    + now left.
    + intros ok err Hin _. exfalso.
      apply in_app_or in Hin. destruct Hin as [Hin | [Hin | Hin]];
        [now apply (quiet_not_in hs _ Hq) in Hin | discriminate
        | now apply (quiet_not_in sock _ Hsock) in Hin].
  - rewrite app_nil_r, filter_app, Hhs. cbn [filter isFindUpstream app].
    split; [cbn; lia | split].
    + intros before err after Heq.
      assert (Hin : In (EvFindUpstream err) (hs ++ [EvAdditionalChallenge ok e]))
        by (rewrite Heq; apply in_or_app; right; now left).
      apply in_app_or in Hin. destruct Hin as [Hin | [Hin | []]];
        [now apply (quiet_not_in hs _ Hq) in Hin | discriminate].
    + reflexivity.
  - rewrite !filter_app, Hhs. cbn [filter isFindUpstream app].
    rewrite (quiet_no_FindUpstream sock Hsock). split; [cbn; lia | split].
    + intros before err after Heq. right.
      change (hs ++ EvAdditionalChallenge true None :: EvFindUpstream e :: sock)
        with (hs ++ [EvAdditionalChallenge true None] ++ EvFindUpstream e :: sock) in Heq.
      rewrite app_assoc in Heq.
      assert (Hnone : filter isFindUpstream (hs ++ [EvAdditionalChallenge true None]) = [])
        by (rewrite filter_app, Hhs; reflexivity).
      destruct (split_at_FindUpstream _ sock before after (EvFindUpstream e)
                  (EvFindUpstream err) Hnone eq_refl Heq)
        as [-> | [c ->]].
      * apply in_or_app; right; now left.
      * apply in_or_app; left. apply in_or_app; right; now left.
    + intros ok err Hin Hbad. exfalso.
      apply in_app_or in Hin. destruct Hin as [Hin | [Hin | [Hin | Hin]]].
      * now apply (quiet_not_in hs _ Hq) in Hin.
      * injection Hin as <- <-. destruct Hbad as [Hb | Hb]; [discriminate | now elim Hb].
      * discriminate.
      * now apply (quiet_not_in sock _ Hsock) in Hin.
Qed.

(** C10. [NewSSHPiperConn] with a configuration whose [FindUpstream] is
    nil panics at once: no handshake is started, no socket is touched,
    neither connection exists. *)
Theorem NewSSHPiperConn_without_FindUpstream_panics (conn : netConn)
    (piper : SSHPiperConfig) :
  FindUpstream piper = None ->
  NewSSHPiperConn conn piper
  = (Panic "FindUpstream func not found", mkSession [] None None).
Proof.
  intros Hnil. unfold NewSSHPiperConn. now rewrite Hnil.
Qed.

End PiperClaims.

Lemma NewSSHPiperConn_without_FindUpstream_panics_witness :
  NewSSHPiperConn (lib := Toy.lib [] []) (mkNetConn "client:4022" 0)
    (mkSSHPiperConfig [Toy.upSigner] None None None)
  = (Panic "FindUpstream func not found", mkSession [] None None).
Proof.
  apply (NewSSHPiperConn_without_FindUpstream_panics (lib := Toy.lib [] [])
           (mkNetConn "client:4022" 0) (mkSSHPiperConfig [Toy.upSigner] None None None)).
  reflexivity.
Defined.

(** ** The shape of a publickey payload *)

Section ParseFacts.

Context {lib : SSHLibrary}.

(** In query form whatever follows the key blob is ignored. *)
Lemma parsePublicKeyMsg_query_ignores_rest (u s algo : string) (data rest : bytes)
    (key : PublicKey) :
  isAcceptableAlgo algo = true ->
  ParsePublicKey data = Ret key ->
  fits32 (List.length (marshalStr algo ++ marshalString data ++ rest)) ->
  parsePublicKeyMsg
    (mkUserAuthRequestMsg u s "publickey" (x00 :: marshalStr algo ++ marshalString data ++ rest))
  = Ret (key, true, None).
Proof.
  intros Halgo Hkey Hfit. unfold parsePublicKeyMsg. cbn [Method Payload].
  change (String.eqb "publickey" "publickey") with true. cbn [negb].
  rewrite parseStr_marshalStr by fits_tac.
  rewrite stringOf_bytesOf, Halgo. cbn [negb].
  rewrite parseString_marshalString by fits_tac.
  now rewrite Hkey.
Qed.

(** In signed form one signature follows the key blob, and nothing
    follows the signature; any first byte other than 0 selects this form. *)
Lemma parsePublicKeyMsg_signed_shape (msg : userAuthRequestMsg) (key : PublicKey)
    (sig : option Signature) :
  parsePublicKeyMsg msg = Ret (key, false, sig) ->
  exists b payload algoBytes afterAlgo data afterKey s,
    Payload msg = b :: payload /\ b <> x00 /\
    parseString payload = Some (algoBytes, afterAlgo) /\
    parseString afterAlgo = Some (data, afterKey) /\
    parseSignature afterKey = Some (s, []) /\ sig = Some s.
Proof.
  unfold parsePublicKeyMsg.
  destruct (negb (String.eqb (Method msg) "publickey")); [discriminate|].
  destruct (Payload msg) as [|b payload]; [discriminate|].
  destruct (parseString payload) as [[algoBytes afterAlgo]|] eqn:Halgo; [|discriminate].
  destruct (negb (isAcceptableAlgo (stringOf algoBytes))); [discriminate|].
  destruct (parseString afterAlgo) as [[data afterKey]|] eqn:Hdata; [|discriminate].
  destruct (ParsePublicKey data) as [k|e|why]; try discriminate.
  destruct (Byte.eqb b x00) eqn:Hb; cbn [negb]; [discriminate|].
  destruct (parseSignature afterKey) as [[s rest]|] eqn:Hsig; [|discriminate].
  destruct rest as [|x rest]; cbn [List.length Nat.ltb Nat.leb]; [|discriminate].
  intros H. injection H as <- <-.
  exists b, payload, algoBytes, afterAlgo, data, afterKey, s.
  split; [reflexivity|]. split; [intros ->; discriminate Hb|].
  repeat split; assumption.
Qed.

(** The request [signAgain] builds parses back, on a server that knows
    the key, to the substituted key and the new signature. *)
Lemma resigned_request_parses_back (u : string) (upKey : PublicKey) (sign : Signature) :
  isAcceptableAlgo (Type' upKey) = true ->
  ParsePublicKey (pubMarshal upKey) = Ret upKey ->
  fits32 (List.length (marshalStr (Type' upKey) ++ marshalString (pubMarshal upKey)
                         ++ marshalString (Marshal sign))) ->
  parsePublicKeyMsg
    (mkUserAuthRequestMsg u serviceSSH "publickey"
       (x01 :: marshalStr (Type' upKey) ++ marshalString (pubMarshal upKey)
          ++ marshalString (Marshal sign)))
  = Ret (upKey, false, Some sign).
Proof.
  intros Halgo Hkey Hfit. unfold parsePublicKeyMsg. cbn [Method Payload].
  change (String.eqb "publickey" "publickey") with true. cbn [negb].
  rewrite parseStr_marshalStr by fits_tac.
  rewrite stringOf_bytesOf, Halgo. cbn [negb].
  rewrite parseString_marshalString by fits_tac.
  rewrite Hkey. change (Byte.eqb x01 x00) with false. cbn [negb].
  replace (marshalString (Marshal sign)) with (marshalString (Marshal sign) ++ [])
    by apply app_nil_r.
  rewrite parseSignature_marshal; [reflexivity|].
  rewrite app_nil_r. clear - Hfit. unfold fits32, marshalStr in *.
  rewrite !length_app, !length_marshalString in Hfit. rewrite length_marshalString. lia.
Qed.

End ParseFacts.

(** ** The bounds on the turns are never reached *)

Section Bounds.

Context {lib : SSHLibrary}.

Lemma pipeAuth_processAuthMsg_runs_the_loop (piper : SSHPiperConfig) (mappedUser : string)
    (init : userAuthRequestMsg) (p p1 : pipedConn) :
  onUpstream (onTransport sendAuthReq) p = (Ret tt, p1) ->
  exists r,
    pipeAuthLoop (pipeAuthTurns p1) (processAuthMsg piper mappedUser) init p1 = Some r /\
    pipeAuth (processAuthMsg piper mappedUser) init p = r.
Proof.
  apply pipeAuth_runs_the_loop.
  intros msg q r q'. apply processAuthMsg_downstreamIncoming.
Qed.

Lemma challengeLoop_within_bound (turns : nat) :
  forall d : connection,
    List.length (incoming (transport d)) < turns ->
    exists r, challengeLoop turns d = Some r.
Proof.
  induction turns as [|turns IH]; intros d Hlen; [lia|].
  cbn [challengeLoop]. unfold bind, onTransport, ret.
  destruct (writePacket _ (transport d)) as [rw t1] eqn:Hw.
  destruct (writePacket_spec _ _ _ _ Hw) as [(-> & _ & Hin & _) | [-> ->]]; [|eauto].
  destruct (nextAuthMsg (setTransport d t1)) as [[next|e|why] d2] eqn:Hn; eauto.
  destruct (String.eqb (Method next) "keyboard-interactive"); [eauto|].
  apply IH. destruct (nextAuthMsg_spec _ _ _ Hn) as [_ [pkt Hpkt]].
  cbn [transport setTransport] in Hpkt. rewrite Hin in Hpkt. rewrite Hpkt in Hlen.
  cbn [List.length] in Hlen. lia.
Qed.

End Bounds.

(** C4, as stated, fails.  With no key mapping configured, the signed
    request [forgedRequest], whose signature does not verify with the
    downstream key over the downstream session ID, is not replaced by a none
    request: the transform returns it with the user overwritten, and the
    relay writes it, downstream signature included, to the upstream
    transport. *)
Lemma signed_request_passes_unverified_without_mapping :
  Verify Toy.downKey
    (buildDataSignedForAuth (sessionID (transport (downstream (Toy.pipe [] []))))
       ToyRuns.forgedRequest (bytesOf (Type' Toy.downKey)) (pubMarshal Toy.downKey))
    (mkSignature "ssh-rsa" [x00]) <> None
  /\ ~ (exists fwd p',
          processAuthMsg (lib := Toy.lib [] []) (Toy.config None) "bob"
            ToyRuns.forgedRequest (Toy.pipe [] []) = (Ret (Some fwd), p')
          /\ Method fwd = "none")
  /\ outgoing (transport (upstream (snd
       (pipeAuthIteration (processAuthMsg (lib := Toy.lib [] []) (Toy.config None) "bob")
          ToyRuns.forgedRequest (Toy.pipe [] [])))))
     = [Marshal (mkUserAuthRequestMsg "bob" serviceSSH "publickey"
                   (x01 :: marshalStr "ssh-rsa" ++ marshalString (pubMarshal Toy.downKey)
                      ++ marshalString (Marshal (mkSignature "ssh-rsa" [x00]))))].
Proof.
  split; [vm_compute; discriminate|]. split.
  - intros (fwd & p' & Hrun & Hnone).
    vm_compute in Hrun. injection Hrun as <- _. discriminate Hnone.
  - vm_compute. reflexivity.
Qed.

(* ================================================================= *)
(** * Further properties of the code *)

(** ** Host keys *)

Lemma NoDup_map_injective {A B : Type} (f : A -> B) (l : list A) (a b : A) :
  NoDup (map f l) -> In a l -> In b l -> f a = f b -> a = b.
Proof.
  induction l as [|x l IH]; cbn [map]; intros Hnd Ha Hb Hf; [destruct Ha|].
  inversion Hnd as [|? ? Hnotin Hrest]; subst.
  destruct Ha as [<- | Ha], Hb as [<- | Hb]; auto.
  - elim Hnotin. rewrite Hf. now apply in_map.
  - elim Hnotin. rewrite <- Hf. now apply in_map.
Qed.

Lemma addHostKey_In (keys : list Signer) (key : Signer) : In key (addHostKey keys key).
Proof.
  induction keys as [|k rest IH]; cbn [addHostKey]; [now left|].
  destruct (String.eqb _ _); [now left | now right].
Qed.

Lemma addHostKey_idempotent (keys : list Signer) (key : Signer) :
  addHostKey (addHostKey keys key) key = addHostKey keys key.
Proof.
  induction keys as [|k rest IH]; cbn [addHostKey].
  - now rewrite String.eqb_refl.
  - destruct (String.eqb (Type' (signerPublicKey k)) (Type' (signerPublicKey key))) eqn:Hk;
      cbn [addHostKey].
    + now rewrite String.eqb_refl.
    + now rewrite Hk, IH.
Qed.

(** X1. A configuration whose host keys have pairwise distinct types
    keeps that property under [AddHostKey]; afterwards the added key is in
    the list and is the only key of its type. *)
Theorem AddHostKey_one_key_per_type (s : SSHPiperConfig) (key : Signer) :
  NoDup (map keyType (hostKeys s)) ->
  NoDup (map keyType (hostKeys (AddHostKey s key)))
  /\ In key (hostKeys (AddHostKey s key))
  /\ (forall k, In k (hostKeys (AddHostKey s key)) -> keyType k = keyType key -> k = key).
Proof.
  intros Hnd. cbn [AddHostKey hostKeys].
  pose proof (addHostKey_NoDup (hostKeys s) key Hnd) as Hnd'.
  pose proof (addHostKey_In (hostKeys s) key) as Hin.
  repeat split; try assumption.
  intros k Hk Hty. exact (NoDup_map_injective keyType _ k key Hnd' Hk Hin Hty).
Qed.

Lemma AddHostKey_one_key_per_type_witness :
  In Toy.upSigner
    (hostKeys (AddHostKey (mkSSHPiperConfig [Toy.signer "ssh-rsa" [x01]] None None None)
                 Toy.upSigner)).
Proof.
  apply (AddHostKey_one_key_per_type
           (mkSSHPiperConfig [Toy.signer "ssh-rsa" [x01]] None None None) Toy.upSigner).
  cbn. repeat constructor. intros [].
Defined.

(** X2. Adding the same key twice is adding it once, and a call of
    [AddHostKey] never shortens the host-key list nor lengthens it by more
    than one. *)
Theorem AddHostKey_idempotent (s : SSHPiperConfig) (key : Signer) :
  AddHostKey (AddHostKey s key) key = AddHostKey s key
  /\ List.length (hostKeys s) <= List.length (hostKeys (AddHostKey s key))
     <= S (List.length (hostKeys s)).
Proof.
  split.
  - unfold AddHostKey. cbn [hostKeys AdditionalChallenge FindUpstream MapPublicKey].
    now rewrite addHostKey_idempotent.
  - cbn [AddHostKey hostKeys].
    induction (hostKeys s) as [|k rest IH]; cbn [addHostKey List.length]; [lia|].
    destruct (String.eqb _ _); cbn [List.length]; lia.
Qed.

(** ** The wire format read backwards *)

Lemma marshalUint32_parseUint32 (b rest : bytes) (n : N) :
  parseUint32 b = Some (n, rest) -> b = marshalUint32 n ++ rest.
Proof.
  destruct b as [|b0 [|b1 [|b2 [|b3 r]]]]; cbn [parseUint32]; try discriminate.
  intros H. injection H as <- <-. unfold marshalUint32. cbn [app].
  pose proof (Byte.to_N_bounded b0). pose proof (Byte.to_N_bounded b1).
  pose proof (Byte.to_N_bounded b2). pose proof (Byte.to_N_bounded b3).
  assert (Hbyte : forall (x : byte) (m : N), (m mod 256 = Byte.to_N x)%N -> byteOfN m = x).
  { intros x m Hm. unfold byteOfN. rewrite Hm, Byte.of_to_N. reflexivity. }
  repeat f_equal; symmetry; apply Hbyte; zify; Z.to_euclidean_division_equations; lia.
Qed.

Lemma marshalString_parseString (b s rest : bytes) :
  parseString b = Some (s, rest) -> b = marshalString s ++ rest.
Proof.
  unfold parseString.
  destruct (parseUint32 b) as [[len r]|] eqn:Hlen; [|discriminate].
  destruct (N.ltb_spec (uint32 (List.length r)) len) as [|Hle]; [discriminate|].
  intros H. injection H as <- <-.
  apply marshalUint32_parseUint32 in Hlen. subst b.
  assert (Hfit : N.to_nat len <= List.length r).
  { unfold uint32 in Hle. pose proof (N.Div0.mod_le (N.of_nat (List.length r)) 4294967296). lia. }
  unfold marshalString. rewrite length_firstn, Nat.min_l by exact Hfit.
  rewrite N2Nat.id, <- app_assoc, firstn_skipn. reflexivity.
Qed.

Lemma marshal_parseSignature (b rest : bytes) (s : Signature) :
  parseSignature b = Some (s, rest) -> b = marshalString (Marshal s) ++ rest.
Proof.
  unfold parseSignature, parseSignatureBody.
  destruct (parseString b) as [[sigBytes r]|] eqn:Hb; [|discriminate].
  destruct (parseString sigBytes) as [[format r1]|] eqn:Hf; [|discriminate].
  destruct (parseString r1) as [[blob r2]|] eqn:Hbl; [|discriminate].
  destruct r2; [|discriminate]. intros H. injection H as <- <-.
  apply marshalString_parseString in Hb, Hf, Hbl. subst b sigBytes r1.
  cbn [Marshal Marshal_Signature Format Blob]. unfold marshalStr, bytesOf, stringOf.
  rewrite list_byte_of_string_of_list_byte, app_nil_r. reflexivity.
Qed.

(** ** Publickey payloads *)

Section PayloadProperties.

Context {lib : SSHLibrary}.

(** X3. The publickey request the proxy builds for a key the library
    parses and accepts ([signAgain] builds the signed form this way: marshal
    a [publickeyAuthMsg], unmarshal it as a [userAuthRequestMsg]) is read
    back by [parsePublicKeyMsg] as that key, in query form without a
    signature and in signed form with the signature it was given. *)
Theorem publickeyAuthMsg_parses_back (u : string) (hasSig : bool) (key : PublicKey)
    (sig : Signature) :
  let m := mkPublickeyAuthMsg u serviceSSH "publickey" hasSig (Type' key) (pubMarshal key)
             (if hasSig then marshalString (Marshal sig) else []) in
  isAcceptableAlgo (Type' key) = true ->
  ParsePublicKey (pubMarshal key) = Ret key ->
  fits32 (List.length (Marshal m)) ->
  parsePublicKeyMsg (fst (Unmarshal_userAuthRequestMsg (Marshal m) emptyUserAuthRequestMsg))
  = Ret (key, negb hasSig, if hasSig then Some sig else None).
Proof.
  intros m Halgo Hkey Hfit. subst m.
  rewrite Unmarshal_Marshal_publickeyAuthMsg by exact Hfit.
  cbn [fst pkUser pkService pkMethod HasSig Algoname PubKey Sig].
  destruct hasSig; cbn [negb marshalBool app].
  - apply resigned_request_parses_back; try assumption. clear - Hfit. fits_tac.
  - apply parsePublicKeyMsg_query_ignores_rest; try assumption. clear - Hfit. fits_tac.
Qed.

(** X4. A request that [parsePublicKeyMsg] accepts has this payload: a
    first byte, zero exactly in query form; the algorithm name, accepted
    by the allow-list; the key blob, parsed to the key returned; then, in
    signed form, the encoding of the signature returned and nothing else.
    In query form no signature is returned and what follows the key blob
    is not looked at. *)
Theorem parsePublicKeyMsg_payload_layout (msg : userAuthRequestMsg) (key : PublicKey)
    (isQuery : bool) (sig : option Signature) :
  parsePublicKeyMsg msg = Ret (key, isQuery, sig) ->
  Method msg = "publickey" /\
  exists b algo data rest,
    Payload msg = b :: marshalString algo ++ marshalString data ++ rest /\
    isQuery = Byte.eqb b x00 /\
    isAcceptableAlgo (stringOf algo) = true /\
    ParsePublicKey data = Ret key /\
    if isQuery then sig = None
    else exists s, sig = Some s /\ rest = marshalString (Marshal s).
Proof.
  intros Hparse. split.
  { apply String.eqb_eq. exact (parsePublicKeyMsg_method _ _ Hparse). }
  revert Hparse. unfold parsePublicKeyMsg.
  destruct (negb (String.eqb (Method msg) "publickey")); [discriminate|].
  destruct (Payload msg) as [|b payload]; [discriminate|].
  destruct (parseString payload) as [[algo afterAlgo]|] eqn:Halgo; [|discriminate].
  destruct (isAcceptableAlgo (stringOf algo)) eqn:Hacc; cbn [negb]; [|discriminate].
  destruct (parseString afterAlgo) as [[data afterKey]|] eqn:Hdata; [|discriminate].
  destruct (ParsePublicKey data) as [k|e|why] eqn:Hkey; try discriminate.
  apply marshalString_parseString in Halgo, Hdata. subst payload afterAlgo.
  destruct (Byte.eqb b x00) eqn:Hb; cbn [negb].
  - intros H. injection H as <- <- <-.
    exists b, algo, data, afterKey. rewrite Hb. repeat split; assumption.
  - destruct (parseSignature afterKey) as [[s rest]|] eqn:Hsig; [|discriminate].
    destruct rest as [|x rest]; cbn [List.length Nat.ltb Nat.leb]; [|discriminate].
    intros H. injection H as <- <- <-.
    apply marshal_parseSignature in Hsig. rewrite app_nil_r in Hsig.
    exists b, algo, data, afterKey. rewrite Hb. repeat split; try assumption.
    now exists s.
Qed.

End PayloadProperties.

Lemma publickeyAuthMsg_parses_back_witness :
  parsePublicKeyMsg (lib := Toy.lib [] [])
    (fst (Unmarshal_userAuthRequestMsg
            (Marshal (mkPublickeyAuthMsg "bob" serviceSSH "publickey" true
                        (Type' Toy.downKey) (pubMarshal Toy.downKey)
                        (marshalString (Marshal ToyRuns.bogusSignature))))
            emptyUserAuthRequestMsg))
  = Ret (Toy.downKey, false, Some ToyRuns.bogusSignature).
Proof.
  apply (publickeyAuthMsg_parses_back (lib := Toy.lib [] []) "bob" true Toy.downKey
           ToyRuns.bogusSignature); vm_compute; reflexivity.
Defined.

Lemma parsePublicKeyMsg_payload_layout_witness :
  Method ToyRuns.queryWithTrailing = "publickey" /\
  exists b algo data rest,
    Payload ToyRuns.queryWithTrailing
    = b :: marshalString algo ++ marshalString data ++ rest /\
    true = Byte.eqb b x00 /\
    isAcceptableAlgo (SSHLibrary := Toy.lib [] []) (stringOf algo) = true /\
    ParsePublicKey (SSHLibrary := Toy.lib [] []) data = Ret Toy.downKey /\
    None = @None Signature.
Proof.
  apply (parsePublicKeyMsg_payload_layout (lib := Toy.lib [] [])
           ToyRuns.queryWithTrailing Toy.downKey true None).
  vm_compute. reflexivity.
Defined.

(** ** What the transform returns and touches *)

Section TransformProperties.

Context {lib : SSHLibrary}.

Lemma checkPublicKey_returns_bool (msg : userAuthRequestMsg) (key : PublicKey)
    (sig : Signature) (p : pipedConn) :
  exists b, checkPublicKey msg key (Some sig) p = Ret b.
Proof.
  unfold checkPublicKey.
  destruct (negb (isAcceptableAlgo (Format sig))); [now exists false|].
  destruct (Verify key _ sig); [now exists false | now exists true].
Qed.

Lemma parsePublicKeyMsg_signed_has_signature (msg : userAuthRequestMsg) (key : PublicKey)
    (sig : option Signature) :
  parsePublicKeyMsg msg = Ret (key, false, sig) -> exists s, sig = Some s.
Proof.
  intros H. destruct (parsePublicKeyMsg_signed_shape msg key sig H)
    as (_ & _ & _ & _ & _ & _ & s & _ & _ & _ & _ & _ & Hs).
  now exists s.
Qed.

(** An error of [Sign] is not returned: the transform returns nil. *)
Lemma processAuthMsg_sign_error (piper : SSHPiperConfig) (mappedUser : string)
    (msg : userAuthRequestMsg) (p : pipedConn) mapKey key sig signer e :
  MapPublicKey piper = Some mapKey ->
  parsePublicKeyMsg msg = Ret (key, false, Some sig) ->
  mapKey (downstream p) key = (Some signer, None) ->
  checkPublicKey msg key (Some sig) p = Ret true ->
  Sign signer (Rand (transport (upstream p)))
    (buildDataSignedForAuth (sessionID (transport (upstream p)))
       (mkUserAuthRequestMsg mappedUser serviceSSH "publickey" [])
       (bytesOf (Type' (signerPublicKey signer))) (pubMarshal (signerPublicKey signer)))
  = Fail e ->
  processAuthMsg piper mappedUser msg p = (Ret None, p).
Proof.
  intros Hmap Hparse Hkey Hcheck Hsign.
  rewrite (processAuthMsg_signed piper mappedUser msg p _ _ _ _ Hmap Hparse Hkey).
  rewrite Hcheck. unfold signAgain, getSessionID. now rewrite Hsign.
Qed.

(** X5. The transform returns an error only in two cases: a key mapping
    is configured and [parsePublicKeyMsg] returned that error for the
    request; or the request is a query, its key is mapped to a signer, the
    upstream accepted the signer's key, and the write of
    SSH_MSG_USERAUTH_PK_OK for the request's key to the downstream
    transport returned that error.  An error of [MapPublicKey], a failed
    verification, a rejection by the upstream and an error of [Sign] are
    never returned as errors. *)
Theorem processAuthMsg_error_sources (piper : SSHPiperConfig) (mappedUser : string)
    (msg : userAuthRequestMsg) (p p' : pipedConn) (e : error) :
  processAuthMsg piper mappedUser msg p = (Fail e, p') ->
  (MapPublicKey piper <> None /\ Method msg = "publickey" /\
   parsePublicKeyMsg msg = Fail e)
  \/ (exists mapKey key sig signer err upT dT,
        MapPublicKey piper = Some mapKey /\
        parsePublicKeyMsg msg = Ret (key, true, sig) /\
        mapKey (downstream p) key = (Some signer, None) /\
        validateKey (signerPublicKey signer) mappedUser (transport (upstream p))
        = ((true, err), upT) /\
        writePacket (Marshal (mkUserAuthPubKeyOkMsg (Type' key) (pubMarshal key)))
          (transport (downstream p)) = (Fail e, dT)).
Proof.
  unfold processAuthMsg.
  destruct (String.eqb (Method msg) "publickey") eqn:Hmethod; cbn [negb]; [|discriminate].
  apply String.eqb_eq in Hmethod.
  destruct (MapPublicKey piper) as [mapKey|]; [|discriminate].
  destruct (parsePublicKeyMsg msg) as [[[key isQuery] sig]|e0|why] eqn:Hparse;
    [|intros H; injection H as <- _; left; repeat split; [discriminate | assumption]
     |discriminate].
  destruct (mapKey (downstream p) key) as [[signer|] [err|]] eqn:Hkey; try discriminate.
  destruct isQuery.
  - unfold validAndAck.
    destruct (validateKey _ _ _) as [[ok err] upT] eqn:Hval.
    destruct ok; [|discriminate].
    unfold bind, onDownstream, onTransport, ret. cbn [upstream downstream].
    destruct (writePacket _ (transport (downstream p))) as [[[]|e0|why] dT] eqn:Hw;
      try discriminate.
    intros H. injection H as <- _. right.
    exists mapKey, key, sig, signer, err, upT, dT. repeat split; assumption.
  - destruct (parsePublicKeyMsg_signed_has_signature _ _ _ Hparse) as [s ->].
    destruct (checkPublicKey_returns_bool msg key s p) as [b ->].
    destruct b; [|discriminate].
    destruct (signAgain _ _ _ _ _); discriminate.
Qed.

(** X7. The transform reads nothing from the downstream transport and
    keeps its user, session ID and open state.  The only packet it ever
    writes to the downstream is SSH_MSG_USERAUTH_PK_OK for the key of a
    query-form request, and it then returns nil.  It returns nil in one
    more case, without writing anything: the request is in signed form,
    its signature passed [checkPublicKey], and [Sign] of the mapped signer
    returned an error. *)
Theorem processAuthMsg_downstream_frame (piper : SSHPiperConfig) (mappedUser : string)
    (msg : userAuthRequestMsg) (p : pipedConn) :
  let r := fst (processAuthMsg piper mappedUser msg p) in
  let p' := snd (processAuthMsg piper mappedUser msg p) in
  downstreamIncoming p' = downstreamIncoming p
  /\ user (downstream p') = user (downstream p)
  /\ sessionID (transport (downstream p')) = sessionID (transport (downstream p))
  /\ closed (transport (downstream p')) = closed (transport (downstream p))
  /\ ((r = Ret None /\
       exists key sig,
         parsePublicKeyMsg msg = Ret (key, true, sig) /\
         outgoing (transport (downstream p'))
         = outgoing (transport (downstream p))
             ++ [Marshal (mkUserAuthPubKeyOkMsg (Type' key) (pubMarshal key))])
      \/ (r = Ret None /\ p' = p /\
          exists mapKey key sig signer data e,
            MapPublicKey piper = Some mapKey /\
            parsePublicKeyMsg msg = Ret (key, false, Some sig) /\
            mapKey (downstream p) key = (Some signer, None) /\
            checkPublicKey msg key (Some sig) p = Ret true /\
            Sign signer (Rand (transport (upstream p))) data = Fail e)
      \/ (r <> Ret None /\
          outgoing (transport (downstream p')) = outgoing (transport (downstream p)))).
Proof.
  cbv zeta. unfold downstreamIncoming.
  assert (Hsame : forall (o : outcome (option userAuthRequestMsg)),
             o <> Ret None ->
             processAuthMsg piper mappedUser msg p = (o, p) ->
             incoming (transport (downstream (snd (processAuthMsg piper mappedUser msg p))))
             = incoming (transport (downstream p)) /\
             user (downstream (snd (processAuthMsg piper mappedUser msg p)))
             = user (downstream p) /\
             sessionID (transport (downstream (snd (processAuthMsg piper mappedUser msg p))))
             = sessionID (transport (downstream p)) /\
             closed (transport (downstream (snd (processAuthMsg piper mappedUser msg p))))
             = closed (transport (downstream p)) /\
             ((fst (processAuthMsg piper mappedUser msg p) = Ret None /\
               exists key sig,
                 parsePublicKeyMsg msg = Ret (key, true, sig) /\
                 outgoing (transport (downstream (snd (processAuthMsg piper mappedUser msg p))))
                 = outgoing (transport (downstream p))
                     ++ [Marshal (mkUserAuthPubKeyOkMsg (Type' key) (pubMarshal key))])
              \/ (fst (processAuthMsg piper mappedUser msg p) = Ret None /\
                  snd (processAuthMsg piper mappedUser msg p) = p /\
                  exists mapKey key sig signer data e,
                    MapPublicKey piper = Some mapKey /\
                    parsePublicKeyMsg msg = Ret (key, false, Some sig) /\
                    mapKey (downstream p) key = (Some signer, None) /\
                    checkPublicKey msg key (Some sig) p = Ret true /\
                    Sign signer (Rand (transport (upstream p))) data = Fail e)
              \/ (fst (processAuthMsg piper mappedUser msg p) <> Ret None /\
                  outgoing (transport (downstream (snd (processAuthMsg piper mappedUser msg p))))
                  = outgoing (transport (downstream p))))).
  { intros o Ho ->. cbn [fst snd]. repeat split. right; right. now split. }
  destruct (String.eqb (Method msg) "publickey") eqn:Hmethod.
  2:{ apply (Hsame (Ret (Some (setUser msg mappedUser)))); [discriminate|].
      apply processAuthMsg_passthrough. now left. }
  destruct (MapPublicKey piper) as [mapKey|] eqn:Hmap.
  2:{ apply (Hsame (Ret (Some (setUser msg mappedUser)))); [discriminate|].
      apply processAuthMsg_passthrough. now right. }
  destruct (parsePublicKeyMsg msg) as [[[key isQuery] sig]|e0|w] eqn:Hparse.
  2:{ apply (Hsame (Fail e0)); [discriminate|].
      unfold processAuthMsg. now rewrite Hmethod, Hmap, Hparse. }
  2:{ apply (Hsame (Panic w)); [discriminate|].
      unfold processAuthMsg. now rewrite Hmethod, Hmap, Hparse. }
  destruct (mapKey (downstream p) key) as [signer err] eqn:Hkey.
  assert (Hunmapped : signer = None \/ err <> None ->
            processAuthMsg piper mappedUser msg p
            = (Ret (Some (noneAuthMsg (User msg))), p)).
  { intros Hno.
    exact (processAuthMsg_unmapped piper mappedUser msg p _ _ _ _ _ _ Hmap Hparse Hkey Hno). }
  destruct err as [e0|];
    [apply (Hsame (Ret (Some (noneAuthMsg (User msg))))); [discriminate|];
     apply Hunmapped; right; discriminate|].
  destruct signer as [signer|];
    [|apply (Hsame (Ret (Some (noneAuthMsg (User msg))))); [discriminate|];
      apply Hunmapped; now left].
  clear Hunmapped. destruct isQuery.
  - rewrite (processAuthMsg_query piper mappedUser msg p _ _ _ _ Hmap Hparse Hkey).
    unfold validAndAck. destruct (validateKey _ _ _) as [[ok err] upT].
    destruct ok.
    2:{ cbn [fst snd downstream]. repeat split. right; right. split; [discriminate|reflexivity]. }
    unfold bind, onDownstream, onTransport, ret. cbn [upstream downstream].
    destruct (writePacket _ (transport (downstream p))) as [rw dT] eqn:Hw.
    unfold writePacket in Hw.
    destruct (closed (transport (downstream p))) eqn:Hclosed.
    + injection Hw as <- <-. cbn [fst snd downstream transport setTransport user].
      repeat split; try assumption. right; right. split; [discriminate|reflexivity].
    + destruct (writable (transport (downstream p))).
      * injection Hw as <- <-. cbn [fst snd downstream transport setTransport user].
        repeat split; try assumption. right; right. split; [discriminate|reflexivity].
      * injection Hw as <- <-.
        cbn [fst snd downstream transport setTransport user incoming sessionID closed outgoing].
        repeat split; try assumption.
        left. split; [reflexivity|]. now exists key, sig.
  - destruct (parsePublicKeyMsg_signed_has_signature _ _ _ Hparse) as [s ->].
    rewrite (processAuthMsg_signed piper mappedUser msg p _ _ _ _ Hmap Hparse Hkey).
    destruct (checkPublicKey msg key (Some s) p) as [[|]|e0|w] eqn:Hcheck;
      try (cbn [fst snd]; repeat split; right; right; split; [discriminate|reflexivity]).
    unfold signAgain.
    destruct (Sign signer _ _) as [sign|e0|w] eqn:Hsign;
      try (cbn [fst snd]; repeat split; right; right; split; [discriminate|reflexivity]).
    cbn [fst snd]. repeat split. right; left. repeat split.
    exists mapKey, key, s, signer. eauto 8.
Qed.

(** X20. When [Sign] of the mapped signer returns an error for a
    signed request whose signature passed [checkPublicKey], the transform
    returns the nil message and no error and leaves both transports as
    they were; the relay loop then goes straight on to read the next
    downstream request: nothing is written to the upstream and the
    downstream gets no reply to that request. *)
Theorem processAuthMsg_sign_error_returns_nil (piper : SSHPiperConfig)
    (mappedUser : string) (msg : userAuthRequestMsg) (p : pipedConn)
    mapKey key sig signer e :
  MapPublicKey piper = Some mapKey ->
  parsePublicKeyMsg msg = Ret (key, false, Some sig) ->
  mapKey (downstream p) key = (Some signer, None) ->
  checkPublicKey msg key (Some sig) p = Ret true ->
  Sign signer (Rand (transport (upstream p)))
    (buildDataSignedForAuth (sessionID (transport (upstream p)))
       (mkUserAuthRequestMsg mappedUser serviceSSH "publickey" [])
       (bytesOf (Type' (signerPublicKey signer))) (pubMarshal (signerPublicKey signer)))
  = Fail e ->
  processAuthMsg piper mappedUser msg p = (Ret None, p)
  /\ forall turns,
       pipeAuthLoop (S turns) (processAuthMsg piper mappedUser) msg p
       = match onDownstream nextAuthMsg p with
         | (Ret next, p1) => pipeAuthLoop turns (processAuthMsg piper mappedUser) next p1
         | (Fail e1, p1) => Some (Fail e1, p1)
         | (Panic why, p1) => Some (Panic why, p1)
         end.
Proof.
  intros Hmap Hparse Hkey Hcheck Hsign.
  pose proof (processAuthMsg_sign_error piper mappedUser msg p _ _ _ _ _
                Hmap Hparse Hkey Hcheck Hsign) as Hnil.
  split; [exact Hnil|].
  intros turns. cbn [pipeAuthLoop]. unfold pipeAuthIteration, bind.
  rewrite Hnil. unfold ret.
  now destruct (onDownstream nextAuthMsg p) as [[next|e1|why] p1].
Qed.

(** X21. With a key mapping configured, a publickey request whose
    payload is a first byte followed by the wire string of an algorithm
    name that is not on the allow-list makes the transform return the
    error of [parsePublicKeyMsg], in query form and in signed form alike,
    whatever follows the name; [MapPublicKey] is not consulted, nothing is
    written to either transport and the relay turn returns that error
    instead of forwarding a none request. *)
Theorem processAuthMsg_unlisted_algorithm_is_fatal (piper : SSHPiperConfig)
    (mappedUser : string) (msg : userAuthRequestMsg) (p : pipedConn)
    mapKey (b : byte) (payload algo rest : bytes) :
  MapPublicKey piper = Some mapKey ->
  Method msg = "publickey" ->
  Payload msg = b :: payload ->
  parseString payload = Some (algo, rest) ->
  isAcceptableAlgo (stringOf algo) = false ->
  parsePublicKeyMsg msg = Fail (errAlgoNotAccepted (stringOf algo))
  /\ processAuthMsg piper mappedUser msg p = (Fail (errAlgoNotAccepted (stringOf algo)), p)
  /\ pipeAuthIteration (processAuthMsg piper mappedUser) msg p
     = (Fail (errAlgoNotAccepted (stringOf algo)), p)
  /\ forall turns,
       pipeAuthLoop (S turns) (processAuthMsg piper mappedUser) msg p
       = Some (Fail (errAlgoNotAccepted (stringOf algo)), p).
Proof.
  intros Hmap Hmethod Hpayload Halgo Hlisted.
  assert (Hparse : parsePublicKeyMsg msg = Fail (errAlgoNotAccepted (stringOf algo))).
  { unfold parsePublicKeyMsg. rewrite Hmethod, Hpayload, Halgo, Hlisted. reflexivity. }
  assert (Hproc : processAuthMsg piper mappedUser msg p
                  = (Fail (errAlgoNotAccepted (stringOf algo)), p)).
  { unfold processAuthMsg. rewrite Hmethod, Hmap, Hparse. reflexivity. }
  assert (Hturn : pipeAuthIteration (processAuthMsg piper mappedUser) msg p
                  = (Fail (errAlgoNotAccepted (stringOf algo)), p)).
  { unfold pipeAuthIteration, bind. rewrite Hproc. reflexivity. }
  split; [exact Hparse|]. split; [exact Hproc|]. split; [exact Hturn|].
  intros turns. cbn [pipeAuthLoop]. rewrite Hturn. reflexivity.
Qed.

(** X8. When the signer signs (and the rebuilt packet fits a 32-bit
    length), the request [signAgain] returns is the same for every
    downstream request and downstream key: nothing of the request it is
    given, its payload and signature included, and nothing of the
    downstream key goes into it. *)
Theorem signAgain_ignores_the_downstream_request (user0 : string)
    (msg msg' : userAuthRequestMsg) (signer : Signer) (downKey downKey' : PublicKey)
    (p : pipedConn) (sign : Signature) :
  let upKey := signerPublicKey signer in
  Sign signer (Rand (transport (upstream p)))
    (buildDataSignedForAuth (sessionID (transport (upstream p)))
       (mkUserAuthRequestMsg user0 serviceSSH "publickey" [])
       (bytesOf (Type' upKey)) (pubMarshal upKey)) = Ret sign ->
  fits32 (List.length
            (Marshal (mkPublickeyAuthMsg user0 serviceSSH "publickey" true (Type' upKey)
                        (pubMarshal upKey) (marshalString (Marshal sign))))) ->
  signAgain user0 msg signer downKey p = signAgain user0 msg' signer downKey' p.
Proof.
  intros upKey Hsign Hfit.
  rewrite (signAgain_rebuilds user0 msg signer downKey p sign Hsign Hfit).
  now rewrite (signAgain_rebuilds user0 msg' signer downKey' p sign Hsign Hfit).
Qed.

End TransformProperties.

Lemma processAuthMsg_error_sources_witness :
  exists mapKey key sig signer err upT dT,
    MapPublicKey (Toy.config (Some Toy.mapToUp)) = Some mapKey /\
    parsePublicKeyMsg (lib := Toy.lib [] []) ToyRuns.queryRequest
    = Ret (key, true, sig) /\
    mapKey (downstream ToyFaults.stuckDownstream) key = (Some signer, None) /\
    validateKey (SSHLibrary := Toy.lib [] []) (signerPublicKey signer) "bob"
      (transport (upstream ToyFaults.stuckDownstream)) = ((true, err), upT) /\
    writePacket (Marshal (mkUserAuthPubKeyOkMsg (Type' key) (pubMarshal key)))
      (transport (downstream ToyFaults.stuckDownstream)) = (Fail errWrite, dT).
Proof.
  destruct (processAuthMsg_error_sources (lib := Toy.lib [] [])
              (Toy.config (Some Toy.mapToUp)) "bob" ToyRuns.queryRequest
              ToyFaults.stuckDownstream
              (snd (processAuthMsg (lib := Toy.lib [] []) (Toy.config (Some Toy.mapToUp))
                      "bob" ToyRuns.queryRequest ToyFaults.stuckDownstream))
              errWrite ltac:(vm_compute; reflexivity))
    as [(_ & _ & Hparse) | Hwrite].
  - vm_compute in Hparse. discriminate Hparse.
  - exact Hwrite.
Defined.

Lemma processAuthMsg_sign_error_returns_nil_witness :
  processAuthMsg (lib := Toy.lib [] []) (Toy.config (Some ToyFaults.mapToFailing)) "bob"
    ToyRuns.signedRequest (Toy.pipe [] [])
  = (Ret None, Toy.pipe [] []).
Proof.
  apply (processAuthMsg_sign_error_returns_nil (lib := Toy.lib [] [])
           (Toy.config (Some ToyFaults.mapToFailing)) "bob" ToyRuns.signedRequest
           (Toy.pipe [] []) ToyFaults.mapToFailing Toy.downKey
           (Toy.downSignature (Toy.pipe [] [])) ToyFaults.failingSigner (errExternal 7));
    vm_compute; reflexivity.
Defined.

Lemma processAuthMsg_unlisted_algorithm_is_fatal_witness :
  processAuthMsg (lib := Toy.lib [] []) (Toy.config (Some Toy.mapToUp)) "bob"
    (Toy.request "publickey" (Toy.queryPayload (Toy.key "ssh-md5" [x11])))
    (Toy.pipe [] [])
  = (Fail (errAlgoNotAccepted "ssh-md5"), Toy.pipe [] []).
Proof.
  apply (processAuthMsg_unlisted_algorithm_is_fatal (lib := Toy.lib [] [])
           (Toy.config (Some Toy.mapToUp)) "bob"
           (Toy.request "publickey" (Toy.queryPayload (Toy.key "ssh-md5" [x11])))
           (Toy.pipe [] []) Toy.mapToUp x00
           (marshalStr "ssh-md5" ++ marshalString (pubMarshal (Toy.key "ssh-md5" [x11])))
           (bytesOf "ssh-md5") (marshalString (pubMarshal (Toy.key "ssh-md5" [x11]))));
    vm_compute; reflexivity.
Defined.

Lemma signAgain_ignores_the_downstream_request_witness :
  signAgain "bob" ToyRuns.signedRequest Toy.upSigner Toy.downKey (Toy.pipe [] [])
  = signAgain "bob" ToyRuns.bogusRequest Toy.upSigner (Toy.key "ssh-dss" []) (Toy.pipe [] []).
Proof.
  apply (signAgain_ignores_the_downstream_request "bob" ToyRuns.signedRequest
           ToyRuns.bogusRequest Toy.upSigner Toy.downKey (Toy.key "ssh-dss" [])
           (Toy.pipe [] [])
           (mkSignature "ssh-ed25519"
              ([x21; x22; x23]
                 ++ buildDataSignedForAuth [x0e]
                      (mkUserAuthRequestMsg "bob" serviceSSH "publickey" [])
                      (bytesOf "ssh-ed25519")
                      (pubMarshal (Toy.key "ssh-ed25519" [x21; x22; x23])))));
    vm_compute; reflexivity.
Defined.

(** ** The relay loop without key mapping *)

Section PassthroughLoop.

Variable process : userAuthRequestMsg -> M pipedConn (option userAuthRequestMsg).
Variable mappedUser : string.

Hypothesis process_passes :
  forall msg p, exists m, process msg p = (Ret (Some m), p) /\ User m = mappedUser.

(** What a run of the loop moves: [C] the packets taken from the
    upstream, [W] the packets given to the downstream, [U] the packets
    given to the upstream. *)
Lemma pipeAuthLoop_passthrough_transcript (turns : nat) :
  forall (msg : userAuthRequestMsg) (p p' : pipedConn) (r : outcome unit),
    pipeAuthLoop turns process msg p = Some (r, p') ->
    exists C W U,
      incoming (transport (upstream p)) = C ++ incoming (transport (upstream p')) /\
      outgoing (transport (downstream p')) = outgoing (transport (downstream p)) ++ W /\
      outgoing (transport (upstream p')) = outgoing (transport (upstream p)) ++ U /\
      (W = C \/ exists x, C = W ++ [x]) /\
      (r = Ret tt -> W = C) /\
      List.length C <= List.length U <= S (List.length C) /\
      Forall (carriesUser mappedUser) U.
Proof.
  induction turns as [|turns IH]; intros msg p p' r; cbn [pipeAuthLoop]; [discriminate|].
  unfold pipeAuthIteration, bind.
  destruct (process_passes msg p) as (m & -> & Hm).
  unfold onUpstream, onDownstream, onTransport, ret, panic.
  destruct (writePacket (Marshal m) (transport (upstream p))) as [rw u1] eqn:Hw.
  cbn [upstream downstream transport setTransport].
  destruct (writePacket_spec _ _ _ _ Hw) as [(-> & Hwo & Hwi & _) | [-> ->]].
  2:{ intros H. injection H as <- <-. exists [], [], [].
      cbn [upstream downstream transport setTransport].
      rewrite !app_nil_r. repeat split; auto; try discriminate. }
  assert (HU1 : Forall (carriesUser mappedUser) [Marshal m]).
  { constructor; [now exists m | constructor]. }
  destruct (readPacket u1) as [rr u2] eqn:Hr.
  destruct (readPacket_spec _ _ _ Hr) as [(pkt & -> & Hri & Hro & _) | [-> ->]].
  2:{ intros H. injection H as <- <-. exists [], [], [Marshal m].
      cbn [upstream downstream transport setTransport List.length].
      rewrite !app_nil_r. repeat split; auto; try discriminate; lia. }
  assert (Hin : incoming (transport (upstream p)) = pkt :: incoming u2) by congruence.
  assert (Hout : outgoing u2 = outgoing (transport (upstream p)) ++ [Marshal m]) by congruence.
  destruct pkt as [|t reply].
  { intros H. injection H as <- <-. exists [[]], [], [Marshal m].
    cbn [upstream downstream transport setTransport List.length].
    rewrite !app_nil_r. repeat split; auto; try discriminate.
    right. now exists []. }
  cbn [upstream downstream transport setTransport].
  destruct (writePacket (t :: reply) (transport (downstream p))) as [rd d1] eqn:Hd.
  cbn [upstream downstream transport setTransport].
  destruct (writePacket_spec _ _ _ _ Hd) as [(-> & Hdo & Hdi & _) | [-> ->]].
  2:{ intros H. injection H as <- <-. exists [t :: reply], [], [Marshal m].
      cbn [upstream downstream transport setTransport List.length].
      rewrite !app_nil_r. repeat split; auto; try discriminate.
      right. now exists (t :: reply). }
  destruct (Byte.eqb t msgUserAuthSuccess).
  { intros H. injection H as <- <-. exists [t :: reply], [t :: reply], [Marshal m].
    cbn [upstream downstream transport setTransport List.length].
    repeat split; auto. }
  cbn [upstream downstream transport setTransport].
  destruct (nextAuthMsg _) as [rn d2] eqn:Hn.
  destruct (nextAuthMsg_spec _ _ _ Hn) as [Hno Hnr].
  cbn [transport setTransport] in Hno.
  destruct rn as [next|e|why]; [|
    intros H; injection H as <- <-; exists [t :: reply], [t :: reply], [Marshal m];
    cbn [upstream downstream transport setTransport List.length];
    repeat split; auto; try lia; try (rewrite Hno, Hdo; reflexivity) | destruct Hnr].
  intros Hloop.
  destruct (IH _ _ _ _ Hloop) as (C & W & U & HC & HW & HU & Hlost & Hok & Hlen & Hall).
  cbn [upstream downstream transport setTransport] in HC, HW, HU.
  exists ((t :: reply) :: C), ((t :: reply) :: W), (Marshal m :: U).
  repeat split.
  - rewrite Hin, HC. reflexivity.
  - rewrite HW, Hno, Hdo, <- app_assoc. reflexivity.
  - rewrite HU, Hout, <- app_assoc. reflexivity.
  - destruct Hlost as [-> | [x ->]]; [now left | right; now exists x].
  - intros Hr'. now rewrite (Hok Hr').
  - cbn [List.length]. lia.
  - cbn [List.length]. lia.
  - constructor; [now exists m | exact Hall].
Qed.

End PassthroughLoop.

Section PassthroughProperties.

Context {lib : SSHLibrary}.

Lemma processAuthMsg_passes_without_mapping (piper : SSHPiperConfig) (mappedUser : string) :
  MapPublicKey piper = None ->
  forall msg p, exists m,
    processAuthMsg piper mappedUser msg p = (Ret (Some m), p) /\ User m = mappedUser.
Proof.
  intros Hnone msg p. exists (setUser msg mappedUser). split; [|reflexivity].
  apply processAuthMsg_passthrough. now right.
Qed.

(** X9. With no key mapping configured, the relay loop hands the
    downstream exactly the packets it took from the upstream, unchanged and
    in order; only the last packet taken can be missing, when the loop
    ends on an error or a panic.  When the loop returns nil every packet
    taken was delivered. *)
Theorem pipeAuthLoop_relays_replies_verbatim (piper : SSHPiperConfig) (mappedUser : string)
    (turns : nat) (msg : userAuthRequestMsg) (p p' : pipedConn) (r : outcome unit) :
  MapPublicKey piper = None ->
  pipeAuthLoop turns (processAuthMsg piper mappedUser) msg p = Some (r, p') ->
  exists taken given,
    incoming (transport (upstream p)) = taken ++ incoming (transport (upstream p')) /\
    outgoing (transport (downstream p')) = outgoing (transport (downstream p)) ++ given /\
    (given = taken \/ exists lost, taken = given ++ [lost]) /\
    (r = Ret tt -> given = taken).
Proof.
  intros Hnone Hloop.
  destruct (pipeAuthLoop_passthrough_transcript _ mappedUser
              (processAuthMsg_passes_without_mapping piper mappedUser Hnone)
              turns msg p p' r Hloop) as (C & W & U & HC & HW & _ & Hlost & Hok & _).
  exists C, W. auto.
Qed.

(** X10. With no key mapping configured, every packet the relay loop
    writes to the upstream is a marshalled auth request whose user is
    [mappedUser], and it writes one request for each reply it takes from
    the upstream, at most one more. *)
Theorem pipeAuthLoop_forwards_mapped_user (piper : SSHPiperConfig) (mappedUser : string)
    (turns : nat) (msg : userAuthRequestMsg) (p p' : pipedConn) (r : outcome unit) :
  MapPublicKey piper = None ->
  pipeAuthLoop turns (processAuthMsg piper mappedUser) msg p = Some (r, p') ->
  exists taken sent,
    incoming (transport (upstream p)) = taken ++ incoming (transport (upstream p')) /\
    outgoing (transport (upstream p')) = outgoing (transport (upstream p)) ++ sent /\
    List.length taken <= List.length sent <= S (List.length taken) /\
    Forall (carriesUser mappedUser) sent.
Proof.
  intros Hnone Hloop.
  destruct (pipeAuthLoop_passthrough_transcript _ mappedUser
              (processAuthMsg_passes_without_mapping piper mappedUser Hnone)
              turns msg p p' r Hloop) as (C & W & U & HC & _ & HU & _ & _ & Hlen & Hall).
  exists C, U. auto.
Qed.

(** X11. [pipeAuth] first asks the upstream for the ssh-userauth service.
    When the upstream's next packet is not SSH_MSG_SERVICE_ACCEPT,
    [pipeAuth] returns the unexpected-message error: the service request
    is the only packet written to the upstream, the downstream is left
    untouched and the first auth request is not transformed. *)
Theorem pipeAuth_needs_service_accept
    (process : userAuthRequestMsg -> M pipedConn (option userAuthRequestMsg))
    (init : userAuthRequestMsg) (p : pipedConn) (t : byte) (rest : bytes)
    (more : list bytes) (n : nat) :
  closed (transport (upstream p)) = false ->
  writable (transport (upstream p)) = S n ->
  incoming (transport (upstream p)) = (t :: rest) :: more ->
  Byte.eqb t msgServiceAccept = false ->
  let r := pipeAuth process init p in
  fst r = Fail (unexpectedMessageError msgServiceAccept t)
  /\ downstream (snd r) = downstream p
  /\ outgoing (transport (upstream (snd r)))
     = outgoing (transport (upstream p)) ++ [Marshal (mkServiceRequestMsg serviceUserAuth)]
  /\ incoming (transport (upstream (snd r))) = more.
Proof.
  intros Hclosed Hwritable Hin Ht. cbv zeta.
  destruct p as [[uu [sid rnd inc out w cl]] d].
  cbn [upstream transport closed writable incoming] in Hclosed, Hwritable, Hin. subst.
  unfold pipeAuth, onUpstream, onTransport, sendAuthReq, bind, liftOutcome,
    writePacket, readPacket, Unmarshal_service.
  cbn [fst snd upstream downstream transport setTransport outgoing incoming closed
       writable sessionID Rand user].
  rewrite Ht.
  cbn [negb fst snd upstream downstream transport setTransport outgoing incoming].
  repeat split.
Qed.

End PassthroughProperties.

Lemma pipeAuthLoop_relays_replies_verbatim_witness :
  exists taken given,
    [[x34]] = taken ++ [] /\
    [[x34]] = [] ++ given /\
    (given = taken \/ exists lost, taken = given ++ [lost]) /\
    (Ret tt = Ret tt -> given = taken).
Proof.
  exact (pipeAuthLoop_relays_replies_verbatim (lib := Toy.lib [] []) (Toy.config None) "bob"
           1 (Toy.request "password" [x00]) (Toy.pipe [] [[x34]])
           (mkPipedConn
              (mkConnection EmptyString
                 (mkTransport [x0e] [] []
                    [Marshal (mkUserAuthRequestMsg "bob" serviceSSH "password" [x00])]
                    15 false))
              (mkConnection "alice" (mkTransport [x0d] [] [] [[x34]] 15 false)))
           (Ret tt) eq_refl eq_refl).
Defined.

Lemma pipeAuthLoop_forwards_mapped_user_witness :
  exists taken sent,
    [[x34]] = taken ++ [] /\
    [Marshal (mkUserAuthRequestMsg "bob" serviceSSH "password" [x00])] = [] ++ sent /\
    List.length taken <= List.length sent <= S (List.length taken) /\
    Forall (carriesUser "bob") sent.
Proof.
  exact (pipeAuthLoop_forwards_mapped_user (lib := Toy.lib [] []) (Toy.config None) "bob"
           1 (Toy.request "password" [x00]) (Toy.pipe [] [[x34]])
           (mkPipedConn
              (mkConnection EmptyString
                 (mkTransport [x0e] [] []
                    [Marshal (mkUserAuthRequestMsg "bob" serviceSSH "password" [x00])]
                    15 false))
              (mkConnection "alice" (mkTransport [x0d] [] [] [[x34]] 15 false)))
           (Ret tt) eq_refl eq_refl).
Defined.

Lemma pipeAuth_needs_service_accept_witness :
  fst (pipeAuth (processAuthMsg (lib := Toy.lib [] []) (Toy.config None) "bob")
         (Toy.request "password" [x00]) (Toy.pipe [] [[x33]]))
  = Fail (unexpectedMessageError msgServiceAccept x33).
Proof.
  apply (pipeAuth_needs_service_accept
           (processAuthMsg (lib := Toy.lib [] []) (Toy.config None) "bob")
           (Toy.request "password" [x00]) (Toy.pipe [] [[x33]]) x33 [] [] 15);
    reflexivity.
Defined.

(** ** Reading requests, the challenge loop and the packet pipe *)

Lemma bytesOf_stringOf (b : bytes) : bytesOf (stringOf b) = b.
Proof. apply list_byte_of_string_of_list_byte. Qed.

Lemma Marshal_Unmarshal_userAuthRequestMsg (pkt : bytes) (out m : userAuthRequestMsg) :
  Unmarshal_userAuthRequestMsg pkt out = (m, None) -> pkt = Marshal m.
Proof.
  unfold Unmarshal_userAuthRequestMsg.
  destruct pkt as [|t data]; [discriminate|].
  destruct (Byte.eqb t msgUserAuthRequest) eqn:Ht; cbn [negb]; [|discriminate].
  apply Byte.byte_dec_bl in Ht. subst t.
  destruct (parseString data) as [[u d1]|] eqn:Hu; [|discriminate].
  destruct (parseString d1) as [[s d2]|] eqn:Hs; [|discriminate].
  destruct (parseString d2) as [[me d3]|] eqn:Hm; [|discriminate].
  intros H. injection H as <-.
  apply marshalString_parseString in Hu, Hs, Hm. subst data d1 d2.
  cbn [Marshal Marshal_userAuthRequestMsg User Service Method Payload].
  unfold marshalStr. now rewrite !bytesOf_stringOf.
Qed.

Lemma nextAuthMsg_Ret (d d' : connection) (m : userAuthRequestMsg) :
  nextAuthMsg d = (Ret m, d') ->
  Service m = serviceSSH
  /\ incoming (transport d) = Marshal m :: incoming (transport d')
  /\ outgoing (transport d') = outgoing (transport d)
  /\ user d' = user d
  /\ closed (transport d) = false.
Proof.
  unfold nextAuthMsg, bind, onTransport, readPacket.
  destruct (closed (transport d)) eqn:Hclosed; [discriminate|].
  destruct (incoming (transport d)) as [|pkt rest] eqn:Hin; [discriminate|].
  cbn [setTransport].
  destruct (Unmarshal_userAuthRequestMsg pkt emptyUserAuthRequestMsg) as [m0 [e|]] eqn:Hun;
    [discriminate|].
  destruct (String.eqb (Service m0) serviceSSH) eqn:Hsvc; cbn [negb]; [|discriminate].
  unfold ret. intros H. injection H as <- <-. cbn [transport incoming outgoing user].
  apply Marshal_Unmarshal_userAuthRequestMsg in Hun. apply String.eqb_eq in Hsvc.
  subst pkt. repeat split; assumption.
Qed.

(** X12. When [nextAuthMsg] returns a request, the request is for the
    service ssh-connection, exactly one packet was taken from the
    transport, and that packet is the encoding of the request returned:
    nothing of the packet is dropped or altered.  Nothing is written and
    the user of the connection is kept. *)
Theorem nextAuthMsg_returns_the_packet_read (d d' : connection) (m : userAuthRequestMsg) :
  nextAuthMsg d = (Ret m, d') ->
  Service m = serviceSSH
  /\ incoming (transport d) = Marshal m :: incoming (transport d')
  /\ outgoing (transport d') = outgoing (transport d)
  /\ user d' = user d.
Proof.
  intros H. destruct (nextAuthMsg_Ret d d' m H) as (H1 & H2 & H3 & H4 & _). auto.
Qed.

(** The message the challenge loop sends. *)
Lemma challengeLoop_transcript (turns : nat) :
  forall d d' : connection,
    challengeLoop turns d = Some (Ret tt, d') ->
    exists others last,
      incoming (transport d)
      = map Marshal others ++ Marshal last :: incoming (transport d') /\
      Method last = "keyboard-interactive" /\
      Forall (fun m => Method m <> "keyboard-interactive") others /\
      outgoing (transport d')
      = outgoing (transport d)
          ++ repeat (Marshal (mkUserAuthFailureMsg ["keyboard-interactive"] false))
               (S (List.length others)) /\
      user d' = user d.
Proof.
  induction turns as [|turns IH]; intros d d'; cbn [challengeLoop]; [discriminate|].
  unfold bind, onTransport, ret.
  destruct (writePacket _ (transport d)) as [rw t1] eqn:Hw.
  destruct (writePacket_spec _ _ _ _ Hw) as [(-> & Hwo & Hwi & _) | [-> ->]];
    [|discriminate].
  destruct (nextAuthMsg (setTransport d t1)) as [[next|e|why] d2] eqn:Hn; try discriminate.
  destruct (nextAuthMsg_Ret _ _ _ Hn) as (_ & Hin & Hout & Huser & _).
  cbn [transport setTransport user] in Hin, Hout, Huser.
  destruct (String.eqb (Method next) "keyboard-interactive") eqn:Hk.
  - intros H. injection H as <-. exists [], next. cbn [map app List.length repeat].
    apply String.eqb_eq in Hk. repeat split; try assumption; try constructor; congruence.
  - intros Hloop.
    destruct (IH _ _ Hloop) as (others & last & Hin' & Hlast & Hall & Hout' & Huser').
    exists (next :: others), last. cbn [map app List.length].
    apply String.eqb_neq in Hk. repeat split.
    + rewrite <- Hwi, Hin, Hin'. reflexivity.
    + exact Hlast.
    + now constructor.
    + rewrite Hout', Hout, Hwo, <- app_assoc. reflexivity.
    + congruence.
Qed.

(** X13. When the loop of the additional challenge ends without error,
    it has read a run of requests that are not keyboard-interactive
    followed by one that is, and has written one
    SSH_MSG_USERAUTH_FAILURE naming only keyboard-interactive before each
    of them, nothing else. *)
Theorem challengeLoop_asks_until_keyboard_interactive (turns : nat) (d d' : connection) :
  challengeLoop turns d = Some (Ret tt, d') ->
  exists others last,
    incoming (transport d)
    = map Marshal others ++ Marshal last :: incoming (transport d') /\
    Method last = "keyboard-interactive" /\
    Forall (fun m => Method m <> "keyboard-interactive") others /\
    outgoing (transport d')
    = outgoing (transport d)
        ++ repeat (Marshal (mkUserAuthFailureMsg ["keyboard-interactive"] false))
             (S (List.length others)).
Proof.
  intros H.
  destruct (challengeLoop_transcript turns d d' H) as (others & last & H1 & H2 & H3 & H4 & _).
  now exists others, last.
Qed.

Lemma pipingLoop_transcript (turns : nat) :
  forall (st st' : pipingState) (r : outcome unit),
    pipingLoop turns st = Some (r, st') ->
    exists taken given,
      incoming (pipeSrc st) = taken ++ incoming (pipeSrc st') /\
      outgoing (pipeDst st') = outgoing (pipeDst st) ++ given /\
      stdout st' = stdout st ++ map stringOf taken /\
      ((given = taken /\ r = Fail errEOF)
       \/ (exists lost, taken = given ++ [lost] /\ r = Fail errWrite)) /\
      outgoing (pipeSrc st') = outgoing (pipeSrc st) /\
      incoming (pipeDst st') = incoming (pipeDst st).
Proof.
  induction turns as [|turns IH]; intros st st' r; cbn [pipingLoop]; [discriminate|].
  destruct (readPacket (pipeSrc st)) as [rr src] eqn:Hr.
  destruct (readPacket_spec _ _ _ Hr) as [(pkt & -> & Hin & Hout & _) | [-> ->]].
  2:{ intros H. injection H as <- <-. exists [], [].
      cbn [pipeSrc pipeDst stdout map]. rewrite !app_nil_r. repeat split; auto. }
  destruct (writePacket pkt (pipeDst st)) as [rw dst] eqn:Hw.
  destruct (writePacket_spec _ _ _ _ Hw) as [(-> & Hwo & Hwi & _) | [-> ->]].
  2:{ intros H. injection H as <- <-. exists [pkt], [].
      cbn [pipeSrc pipeDst stdout map]. rewrite !app_nil_r.
      repeat split; auto. right. now exists pkt. }
  intros Hloop.
  destruct (IH _ _ _ Hloop) as (taken & given & HC & HW & Hprint & Hend & Hso & Hdi).
  cbn [pipeSrc pipeDst stdout] in HC, HW, Hprint, Hso, Hdi.
  exists (pkt :: taken), (pkt :: given). cbn [map]. repeat split.
  - rewrite Hin, HC. reflexivity.
  - rewrite HW, Hwo, <- app_assoc. reflexivity.
  - rewrite Hprint, <- app_assoc. reflexivity.
  - destruct Hend as [[-> ->] | (lost & -> & ->)]; [now left | right; now exists lost].
  - congruence.
  - congruence.
Qed.

(** X14. A call of [piping] ends only with an error, of the read or of
    the write.  Until then it hands [dst] the packets it takes from [src],
    unchanged and in order, and prints every packet it takes to standard
    output, the one whose write fails included; it reads nothing from
    [dst] and writes nothing to [src]. *)
Theorem piping_copies_in_order (dst src : handshakeTransport) (printed : list string) :
  let r := fst (piping dst src printed) in
  let st := snd (piping dst src printed) in
  exists taken given,
    incoming src = taken ++ incoming (pipeSrc st) /\
    outgoing (pipeDst st) = outgoing dst ++ given /\
    stdout st = printed ++ map stringOf taken /\
    ((given = taken /\ r = Fail errEOF)
     \/ (exists lost, taken = given ++ [lost] /\ r = Fail errWrite)) /\
    outgoing (pipeSrc st) = outgoing src /\
    incoming (pipeDst st) = incoming dst.
Proof.
  cbv zeta. unfold piping.
  destruct (pipingLoop (S (List.length (incoming src))) (mkPipingState dst src printed))
    as [[r st]|] eqn:Hloop.
  - exact (pipingLoop_transcript _ _ _ _ Hloop).
  - exfalso.
    assert (Hbound : forall turns st0,
               List.length (incoming (pipeSrc st0)) < turns -> pipingLoop turns st0 <> None).
    { induction turns as [|turns IH]; intros st0 Hlen; [lia|]. cbn [pipingLoop].
      destruct (readPacket (pipeSrc st0)) as [rr src'] eqn:Hr.
      destruct (readPacket_spec _ _ _ Hr) as [(pkt & -> & Hin & _) | [-> ->]];
        [|discriminate].
      destruct (writePacket pkt (pipeDst st0)) as [[[]|e|why] dst']; try discriminate.
      apply IH. cbn [pipeSrc]. rewrite Hin in Hlen. cbn [List.length] in Hlen. lia. }
    apply (Hbound (S (List.length (incoming src))) (mkPipingState dst src printed));
      [cbn [pipeSrc]; lia | exact Hloop].
Qed.

Lemma nextAuthMsg_returns_the_packet_read_witness :
  Service (Toy.request "password" [x00]) = serviceSSH.
Proof.
  apply (nextAuthMsg_returns_the_packet_read
           (mkConnection "alice" (Toy.peer [x0d] [Marshal (Toy.request "password" [x00])]))
           (mkConnection "alice" (Toy.peer [x0d] []))
           (Toy.request "password" [x00])).
  vm_compute. reflexivity.
Defined.

Lemma challengeLoop_asks_until_keyboard_interactive_witness :
  exists others last,
    [Marshal (Toy.request "password" [x00]); Marshal (Toy.request "keyboard-interactive" [])]
    = map Marshal others ++ Marshal last :: [] /\
    Method last = "keyboard-interactive" /\
    Forall (fun m => Method m <> "keyboard-interactive") others /\
    [Marshal (mkUserAuthFailureMsg ["keyboard-interactive"] false);
     Marshal (mkUserAuthFailureMsg ["keyboard-interactive"] false)]
    = [] ++ repeat (Marshal (mkUserAuthFailureMsg ["keyboard-interactive"] false))
              (S (List.length others)).
Proof.
  assert (Hrun : challengeLoop 2
                   (mkConnection "alice"
                      (Toy.peer [x0d] [Marshal (Toy.request "password" [x00]);
                                       Marshal (Toy.request "keyboard-interactive" [])]))
                 = Some (Ret tt,
                         mkConnection "alice"
                           (mkTransport [x0d] [] []
                              [Marshal (mkUserAuthFailureMsg ["keyboard-interactive"] false);
                               Marshal (mkUserAuthFailureMsg ["keyboard-interactive"] false)]
                              14 false)))
    by (vm_compute; reflexivity).
  exact (challengeLoop_asks_until_keyboard_interactive 2 _ _ Hrun).
Defined.

(** ** Handshakes and the session set-up *)

Lemma Marshal_Unmarshal_service (ty : byte) (data : bytes) (s : string) :
  Unmarshal_service ty data = Ret s -> data = ty :: marshalStr s.
Proof.
  unfold Unmarshal_service. destruct data as [|t data]; [discriminate|].
  destruct (Byte.eqb t ty) eqn:Ht; cbn [negb]; [|discriminate].
  apply Byte.byte_dec_bl in Ht. subst t.
  destruct (parseString data) as [[x [|y rest]]|] eqn:Hx; try discriminate.
  intros H. injection H as <-.
  apply marshalString_parseString in Hx. subst data.
  unfold marshalStr. now rewrite bytesOf_stringOf, app_nil_r.
Qed.

Section SetupProperties.

Context {lib : SSHLibrary}.

(** X15. When the server-side handshake succeeds, the host-key list was
    not empty, and after the key exchange the handshake took exactly two
    packets from the downstream, one of type SSH_MSG_NEWKEYS and then the
    service request for ssh-userauth, and wrote exactly one, the service
    accept for ssh-userauth. *)
Theorem serverHandshakeNoAuth_success (c : netConn) (keys : list Signer)
    (tr : handshakeTransport) :
  serverHandshakeNoAuth c keys = Ret tr ->
  keys <> [] /\
  exists tr0 rest,
    serverKeyExchange c keys = Ret tr0 /\
    incoming tr0
    = (msgNewKeys :: rest) :: Marshal (mkServiceRequestMsg serviceUserAuth) :: incoming tr /\
    outgoing tr = outgoing tr0 ++ [Marshal (mkServiceAcceptMsg serviceUserAuth)] /\
    sessionID tr = sessionID tr0.
Proof.
  unfold serverHandshakeNoAuth.
  destruct keys as [|k keys]; [discriminate|]. cbn [List.length Nat.eqb].
  destruct (serverKeyExchange c (k :: keys)) as [tr0|e|why]; try discriminate.
  unfold bind, expectNewKeys, bind, liftOutcome, ret, fail, panic.
  destruct (readPacket tr0) as [r1 t1] eqn:Hr1.
  destruct (readPacket_spec _ _ _ Hr1) as [(p1 & -> & Hin1 & Hout1 & Hsid1) | [-> ->]];
    [|discriminate].
  destruct p1 as [|b rest]; [discriminate|].
  destruct (Byte.eqb b msgNewKeys) eqn:Hb; cbn [negb]; [|discriminate].
  apply Byte.byte_dec_bl in Hb. subst b.
  destruct (readPacket t1) as [r2 t2] eqn:Hr2.
  destruct (readPacket_spec _ _ _ Hr2) as [(p2 & -> & Hin2 & Hout2 & Hsid2) | [-> ->]];
    [|discriminate].
  destruct (Unmarshal_service msgServiceRequest p2) as [service|e|why] eqn:Hsvc;
    try discriminate.
  destruct (String.eqb service serviceUserAuth) eqn:Hs; cbn [negb]; [|discriminate].
  apply String.eqb_eq in Hs. subst service.
  apply Marshal_Unmarshal_service in Hsvc.
  destruct (writePacket _ t2) as [rw t3] eqn:Hw.
  destruct (writePacket_spec _ _ _ _ Hw) as [(-> & Hwo & Hwi & Hsid3) | [-> ->]];
    [|discriminate].
  intros H. injection H as <-. split; [discriminate|].
  exists tr0, rest. repeat split.
  - rewrite Hin1, Hin2, Hwi, Hsvc. reflexivity.
  - rewrite Hwo, Hout2, Hout1. reflexivity.
  - congruence.
Qed.

(** X16. With no host key configured, [NewSSHPiperConn] returns the
    error of the server handshake at once: the socket is closed, no
    callback is called and no connection is established. *)
Theorem NewSSHPiperConn_without_host_keys (conn : netConn) (piper : SSHPiperConfig) fu :
  FindUpstream piper = Some fu ->
  hostKeys piper = [] ->
  NewSSHPiperConn conn piper
  = (Fail (errorString "ssh: server has no host keys"),
     mkSession [EvServerHandshake conn; EvCloseSocket conn] None None).
Proof.
  intros Hfu Hkeys. unfold NewSSHPiperConn, newDownstream, serverHandshakeNoAuth.
  now rewrite Hfu, Hkeys.
Qed.

Lemma connectUpstream_final (piper : SSHPiperConfig)
    (findUpstream : connection -> option netConn * string * option error)
    (userAuthReq : userAuthRequestMsg) (d : connection) :
  let r := fst (connectUpstream piper findUpstream userAuthReq d) in
  let s := snd (connectUpstream piper findUpstream userAuthReq d) in
  match r with
  | Ret p => finalDownstream s = Some (downstream p) /\ finalUpstream s = Some (upstream p)
  | _ =>
      (exists d', finalDownstream s = Some d' /\ closed (transport d') = true)
      /\ (forall u, finalUpstream s = Some u -> closed (transport u) = true)
  end.
Proof.
  cbv zeta. unfold connectUpstream.
  destruct (findUpstream d) as [[upconn mappedUser] err].
  destruct err as [e|]; cbn [fst snd finalDownstream finalUpstream].
  { split; [eexists; split; reflexivity | discriminate]. }
  destruct upconn as [upconn|]; cbn [fst snd finalDownstream finalUpstream].
  2:{ split; [eexists; split; reflexivity | discriminate]. }
  destruct (newUpstream upconn (RemoteAddr upconn)) as [[u|e|why] ev'];
    cbn [fst snd finalDownstream finalUpstream];
    try (split; [eexists; split; reflexivity | discriminate]).
  destruct (pipeAuth _ userAuthReq _) as [[[]|e|why] p];
    cbn [fst snd finalDownstream finalUpstream];
    [now split | |];
    (split; [eexists; split; reflexivity | intros u0 H; injection H as <-; reflexivity]).
Qed.

(** X17. When [NewSSHPiperConn] returns a pipe, the two connections it
    leaves are those of the pipe.  When it returns an error, or panics
    after the downstream handshake, every connection it had established is
    closed, and an upstream connection exists only if a downstream one
    does. *)
Theorem NewSSHPiperConn_closes_on_failure (conn : netConn) (piper : SSHPiperConfig) :
  let r := fst (NewSSHPiperConn conn piper) in
  let s := snd (NewSSHPiperConn conn piper) in
  match r with
  | Ret p => finalDownstream s = Some (downstream p) /\ finalUpstream s = Some (upstream p)
  | _ =>
      (forall d, finalDownstream s = Some d -> closed (transport d) = true)
      /\ (forall u, finalUpstream s = Some u -> closed (transport u) = true)
      /\ (finalDownstream s = None -> finalUpstream s = None)
  end.
Proof.
  cbv zeta. unfold NewSSHPiperConn.
  destruct (FindUpstream piper) as [findUpstream|];
    [|cbn; repeat split; discriminate].
  destruct (newDownstream conn (hostKeys piper)) as [[d|e|why] ev];
    try (cbn; repeat split; discriminate).
  destruct (nextAuthMsg d) as [[userAuthReq|e|why] d1];
    cbn [fst snd finalDownstream finalUpstream];
    try (repeat split; try discriminate; intros d0 H; injection H as <-; reflexivity).
  destruct (additionalChallenge piper _) as [[[[]|e|why] d2] ev'];
    cbn [fst snd finalDownstream finalUpstream];
    try (repeat split; try discriminate; intros d0 H; injection H as <-; reflexivity).
  unfold prependEvents. cbn [fst snd finalDownstream finalUpstream].
  pose proof (connectUpstream_final piper findUpstream userAuthReq d2) as H.
  cbv zeta in H.
  destruct (fst (connectUpstream piper findUpstream userAuthReq d2)) as [p|e|why];
    [exact H | |];
    (destruct H as [(d' & Hd & Hclosed) Hup]; repeat split;
     [intros d0 H0; rewrite Hd in H0; injection H0 as <-; exact Hclosed
     | exact Hup
     | intros Hnone; rewrite Hd in Hnone; discriminate]).
Qed.

(** X18. A [FindUpstream] that returns an empty user name gives the same
    run as one that returns the user name of the downstream connection,
    which is the user of the first auth request. *)
Theorem NewSSHPiperConn_empty_user_is_downstream_user (conn : netConn)
    (piper : SSHPiperConfig) fu :
  FindUpstream piper = Some fu ->
  NewSSHPiperConn conn piper
  = NewSSHPiperConn conn
      (mkSSHPiperConfig (hostKeys piper) (AdditionalChallenge piper)
         (Some (fun d =>
                  let '(upconn, mappedUser, err) := fu d in
                  (upconn, if String.eqb mappedUser EmptyString then user d else mappedUser,
                   err)))
         (MapPublicKey piper)).
Proof.
  intros Hfu. unfold NewSSHPiperConn.
  cbn [FindUpstream hostKeys]. rewrite Hfu.
  destruct (newDownstream conn (hostKeys piper)) as [[d|e|why] ev]; try reflexivity.
  destruct (nextAuthMsg d) as [[userAuthReq|e|why] d1]; try reflexivity.
  change (additionalChallenge
            (mkSSHPiperConfig (hostKeys piper) (AdditionalChallenge piper)
               (Some (fun d0 =>
                        let '(upconn, mappedUser, err) := fu d0 in
                        (upconn,
                         if String.eqb mappedUser EmptyString then user d0 else mappedUser,
                         err)))
               (MapPublicKey piper)))
    with (additionalChallenge piper).
  destruct (additionalChallenge piper _) as [[[[]|e|why] d2] ev']; try reflexivity.
  f_equal. unfold connectUpstream.
  destruct (fu d2) as [[upconn mappedUser] err].
  destruct err as [e|]; [reflexivity|].
  destruct upconn as [upconn|]; [|reflexivity].
  destruct (String.eqb mappedUser EmptyString) eqn:Hempty.
  - destruct (String.eqb (user d2) EmptyString); reflexivity.
  - rewrite Hempty. reflexivity.
Qed.

End SetupProperties.

Section SetupEvents.

Context {lib : SSHLibrary}.

(** X19. A run of [NewSSHPiperConn] that returns a pipe did exactly
    this, in this order: the server handshake on the given socket; the
    additional challenge, if one is configured, which returned true and no
    error; one call of [FindUpstream], which returned a socket and no
    error; the client handshake on that socket, dialled by the socket's own
    remote address.  No socket was closed. *)
Theorem NewSSHPiperConn_success_events (conn : netConn) (piper : SSHPiperConfig)
    (p : pipedConn) (s : session) :
  NewSSHPiperConn conn piper = (Ret p, s) ->
  exists upconn,
    events s
    = EvServerHandshake conn
        :: match AdditionalChallenge piper with
           | Some _ => [EvAdditionalChallenge true None]
           | None => []
           end
        ++ [EvFindUpstream None; EvClientHandshake upconn (RemoteAddr upconn)].
Proof.
  unfold NewSSHPiperConn.
  destruct (FindUpstream piper) as [findUpstream|]; [|discriminate].
  unfold newDownstream.
  destruct (serverHandshakeNoAuth conn (hostKeys piper)) as [tr|e|why]; try discriminate.
  destruct (nextAuthMsg _) as [[userAuthReq|e|why] d1]; try discriminate.
  unfold additionalChallenge.
  assert (Hconnect : forall d2 ev,
             prependEvents ev (connectUpstream piper findUpstream userAuthReq d2) = (Ret p, s) ->
             exists upconn,
               events s = ev ++ [EvFindUpstream None;
                                 EvClientHandshake upconn (RemoteAddr upconn)]).
  { intros d2 ev. unfold prependEvents, connectUpstream.
    destruct (findUpstream d2) as [[upconn mappedUser] err].
    destruct err as [e|]; [discriminate|].
    destruct upconn as [upconn|]; [|discriminate].
    unfold newUpstream.
    destruct (clientHandshakeNoAuth upconn (RemoteAddr upconn)) as [tu|e|why];
      try discriminate.
    destruct (pipeAuth _ userAuthReq _) as [[[]|e|why] p0]; try discriminate.
    cbn [fst snd events finalDownstream finalUpstream].
    intros H. injection H as _ <-. now exists upconn. }
  destruct (AdditionalChallenge piper) as [challenge|].
  - destruct (challengeLoop _ _) as [[[[]|e|why] d2]|]; try discriminate.
    destruct (challenge d2) as [[ok err] d3].
    destruct err as [e|]; [discriminate|].
    destruct ok; cbn [negb]; [|discriminate].
    intros H. destruct (Hconnect _ _ H) as [upconn Hev]. exists upconn.
    rewrite Hev. reflexivity.
  - intros H. destruct (Hconnect _ _ H) as [upconn Hev]. exists upconn.
    rewrite Hev. reflexivity.
Qed.

End SetupEvents.

Lemma serverHandshakeNoAuth_success_witness :
  [Toy.upSigner] <> [].
Proof.
  assert (Hrun : serverHandshakeNoAuth
                   (lib := Toy.lib [[x15]; Marshal (mkServiceRequestMsg serviceUserAuth)] [])
                   (mkNetConn "client:4022" 0) [Toy.upSigner]
                 = Ret (mkTransport [x0d] [] []
                          [Marshal (mkServiceAcceptMsg serviceUserAuth)] 15 false))
    by (vm_compute; reflexivity).
  exact (proj1 (serverHandshakeNoAuth_success
                  (lib := Toy.lib [[x15]; Marshal (mkServiceRequestMsg serviceUserAuth)] [])
                  _ _ _ Hrun)).
Defined.

Lemma NewSSHPiperConn_without_host_keys_witness :
  NewSSHPiperConn (lib := Toy.lib [] []) (mkNetConn "client:4022" 0) (Toy.config None)
  = (Fail (errorString "ssh: server has no host keys"),
     mkSession [EvServerHandshake (mkNetConn "client:4022" 0);
                EvCloseSocket (mkNetConn "client:4022" 0)] None None).
Proof.
  apply (NewSSHPiperConn_without_host_keys (lib := Toy.lib [] [])
           (mkNetConn "client:4022" 0) (Toy.config None)
           (fun _ => (Some (mkNetConn "up:22" 1), "bob", None)));
    reflexivity.
Defined.

Lemma NewSSHPiperConn_empty_user_is_downstream_user_witness :
  NewSSHPiperConn
    (lib := Toy.lib [[x15]; Marshal (mkServiceRequestMsg serviceUserAuth);
                     Marshal (Toy.request "password" [x00])]
              [[x15]; Marshal (mkServiceAcceptMsg serviceUserAuth); [x34]])
    (mkNetConn "client:4022" 0)
    (mkSSHPiperConfig [Toy.upSigner] None
       (Some (fun _ => (Some (mkNetConn "up:22" 1), EmptyString, None))) None)
  = (Ret (mkPipedConn
            (mkConnection EmptyString
               (mkTransport [x0e] [] []
                  [Marshal (mkServiceRequestMsg serviceUserAuth);
                   Marshal (mkUserAuthRequestMsg "alice" serviceSSH "password" [x00])]
                  14 false))
            (mkConnection "alice"
               (mkTransport [x0d] [] []
                  [Marshal (mkServiceAcceptMsg serviceUserAuth); [x34]] 14 false))),
     mkSession [EvServerHandshake (mkNetConn "client:4022" 0);
                EvFindUpstream None;
                EvClientHandshake (mkNetConn "up:22" 1) "up:22"]
       (Some (mkConnection "alice"
                (mkTransport [x0d] [] []
                   [Marshal (mkServiceAcceptMsg serviceUserAuth); [x34]] 14 false)))
       (Some (mkConnection EmptyString
                (mkTransport [x0e] [] []
                   [Marshal (mkServiceRequestMsg serviceUserAuth);
                    Marshal (mkUserAuthRequestMsg "alice" serviceSSH "password" [x00])]
                   14 false)))).
Proof.
  rewrite (NewSSHPiperConn_empty_user_is_downstream_user
             (lib := Toy.lib [[x15]; Marshal (mkServiceRequestMsg serviceUserAuth);
                              Marshal (Toy.request "password" [x00])]
                       [[x15]; Marshal (mkServiceAcceptMsg serviceUserAuth); [x34]])
             (mkNetConn "client:4022" 0)
             (mkSSHPiperConfig [Toy.upSigner] None
                (Some (fun _ => (Some (mkNetConn "up:22" 1), EmptyString, None))) None)
             (fun _ => (Some (mkNetConn "up:22" 1), EmptyString, None))
             ltac:(reflexivity)).
  vm_compute. reflexivity.
Defined.

Lemma NewSSHPiperConn_success_events_witness :
  exists upconn,
    events (snd (NewSSHPiperConn
                   (lib := Toy.lib [[x15]; Marshal (mkServiceRequestMsg serviceUserAuth);
                                    Marshal (Toy.request "password" [x00])]
                             [[x15]; Marshal (mkServiceAcceptMsg serviceUserAuth); [x34]])
                   (mkNetConn "client:4022" 0)
                   (mkSSHPiperConfig [Toy.upSigner] None
                      (Some (fun _ => (Some (mkNetConn "up:22" 1), "bob", None))) None)))
    = EvServerHandshake (mkNetConn "client:4022" 0)
        :: [] ++ [EvFindUpstream None; EvClientHandshake upconn (RemoteAddr upconn)].
Proof.
  apply (NewSSHPiperConn_success_events
           (lib := Toy.lib [[x15]; Marshal (mkServiceRequestMsg serviceUserAuth);
                            Marshal (Toy.request "password" [x00])]
                     [[x15]; Marshal (mkServiceAcceptMsg serviceUserAuth); [x34]])
           (mkNetConn "client:4022" 0)
           (mkSSHPiperConfig [Toy.upSigner] None
              (Some (fun _ => (Some (mkNetConn "up:22" 1), "bob", None))) None)
           (mkPipedConn
              (mkConnection EmptyString
                 (mkTransport [x0e] [] []
                    [Marshal (mkServiceRequestMsg serviceUserAuth);
                     Marshal (mkUserAuthRequestMsg "bob" serviceSSH "password" [x00])]
                    14 false))
              (mkConnection "alice"
                 (mkTransport [x0d] [] []
                    [Marshal (mkServiceAcceptMsg serviceUserAuth); [x34]] 14 false)))).
  vm_compute. reflexivity.
Defined.
